(** * fetch_emblems: a shallow embedding of tools/fetch_emblems.py

    The script resolves each country of a static list to an SVG file on
    Wikimedia Commons, downloads it into a cache directory, extracts the
    bounding box and the inner markup of the file, and merges the records
    so obtained into [public/symbols.json], keyed by identifier.

    Conventions of the embedding:
    - a Python [str] is the list of its code points ([pystr]);
    - the values of [json.load] are the trees of [json]; numbers are the
      integers, floating-point numbers are outside the embedding;
    - a Python [dict] is the list of its items in insertion order;
    - an uncaught Python exception is the [Raise] branch of [result];
    - the network, the XML parser and the JSON codec are the fields of an
      environment [env]; the file system and the log of effects are the
      fields of [world], threaded through the functions that touch them;
    - [print] calls are left out. *)

From Stdlib Require Import List ZArith NArith Bool Lia String Ascii.
From stdpp Require Import base gmap list.
Import ListNotations.

Local Open Scope N_scope.

#[local] Set Warnings "-register-all".

(** ** Python strings *)

Module PyStr.

(** A Python string: the sequence of its Unicode code points. *)
Abbreviation pystr := (list N).

(** An ASCII literal as a Python string. *)
Definition py (s : string) : pystr := map N_of_ascii (list_ascii_of_string s).

Definition in_range (lo hi c : N) : bool := (lo <=? c) && (c <=? hi).

Definition is_upper (c : N) : bool := in_range 65 90 c.
Definition is_lower (c : N) : bool := in_range 97 122 c.
Definition is_digit (c : N) : bool := in_range 48 57 c.

Definition underscore : N := 95.
Definition dot : N := 46.
Definition hyphen : N := 45.
Definition space : N := 32.
Definition apostrophe : N := 39.
Definition slash : N := 47.
Definition rbrace : N := 125.

(** [str.lower] on one code point of the Latin-1 range: the letters A-Z
    and the capital letters U+00C0..U+00DE (U+00D7, the multiplication
    sign, apart) move 32 places up; every other code point below U+0100
    is its own lower case.  The country names of the script stay inside
    this range; code points above it are left as they are. *)
Definition lower_char (c : N) : N :=
  if is_upper c then c + 32
  else if in_range 192 222 c && negb (c =? 215) then c + 32
  else c.

Definition lower (s : pystr) : pystr := map lower_char s.

(** [s.replace(old, new)] for a pattern [old] of one character, the only
    form the script uses. *)
Definition replace (old : N) (new : pystr) (s : pystr) : pystr :=
  flat_map (fun c => if c =? old then new else [c]) s.

(** [str.isspace] on one code point: the characters [str.strip] removes. *)
Definition is_space (c : N) : bool :=
  in_range 9 13 c || in_range 28 32 c || (c =? 133) || (c =? 160)
  || (c =? 5760) || in_range 8192 8202 c || (c =? 8232) || (c =? 8233)
  || (c =? 8239) || (c =? 8287) || (c =? 12288).

Fixpoint lstrip (s : pystr) : pystr :=
  match s with
  | c :: s' => if is_space c then lstrip s' else s
  | [] => []
  end.

Definition rstrip (s : pystr) : pystr := rev (lstrip (rev s)).

Definition strip (s : pystr) : pystr := rstrip (lstrip s).

(** Truth value of a string: [""] is false. *)
Definition truthy (s : pystr) : bool :=
  match s with [] => false | _ => true end.

Definition pystr_eqb (a b : pystr) : bool := bool_decide (a = b).

End PyStr.
Export PyStr.

(** ** sanitize_filename and the record identifier *)

(** The character class [A-Za-z0-9_.\-]. *)
Definition filename_char (c : N) : bool :=
  is_upper c || is_lower c || is_digit c
  || (c =? underscore) || (c =? dot) || (c =? hyphen).

(** [re.sub(r"[^A-Za-z0-9_.\-]", "_", name)] *)
Definition sanitize_filename (name : pystr) : pystr :=
  map (fun c => if filename_char c then c else underscore) name.

(** [country.lower().replace(" ", "_").replace("'", "").replace("-", "_")] *)
Definition safe_country (country : pystr) : pystr :=
  replace hyphen (py "_")
    (replace apostrophe (py "")
       (replace space (py "_") (lower country))).

(** [f"{safe_country}_emblem"] *)
Definition sym_id (country : pystr) : pystr :=
  safe_country country ++ py "_emblem".

(** The static list of entities, in the order of the script.  The one
    name outside ASCII is written with its code point U+00F4. *)
Definition UN_COUNTRIES : list pystr := [
    py "Afghanistan"; py "Albania"; py "Algeria"; py "Andorra"; py "Angola"; py "Antigua and Barbuda"; py "Argentina"; py "Armenia"; py "Australia"; py "Austria";
    py "Azerbaijan"; py "Bahamas"; py "Bahrain"; py "Bangladesh"; py "Barbados"; py "Belarus"; py "Belgium"; py "Belize"; py "Benin"; py "Bhutan";
    py "Bolivia"; py "Bosnia and Herzegovina"; py "Botswana"; py "Brazil"; py "Brunei"; py "Bulgaria"; py "Burkina Faso"; py "Burundi"; py "Cabo Verde"; py "Cambodia";
    py "Cameroon"; py "Canada"; py "Central African Republic"; py "Chad"; py "Chile"; py "China"; py "Colombia"; py "Comoros"; py "Congo"; py "Costa Rica";
    py "C" ++ [244] ++ py "te d'Ivoire"; py "Croatia"; py "Cuba"; py "Cyprus"; py "Czechia"; py "Democratic Republic of the Congo"; py "Denmark"; py "Djibouti"; py "Dominica"; py "Dominican Republic";
    py "Ecuador"; py "Egypt"; py "El Salvador"; py "Equatorial Guinea"; py "Eritrea"; py "Estonia"; py "Eswatini"; py "Ethiopia"; py "Fiji"; py "Finland";
    py "France"; py "Gabon"; py "Gambia"; py "Georgia"; py "Germany"; py "Ghana"; py "Greece"; py "Grenada"; py "Guatemala"; py "Guinea";
    py "Guinea-Bissau"; py "Guyana"; py "Haiti"; py "Honduras"; py "Hungary"; py "Iceland"; py "India"; py "Indonesia"; py "Iran"; py "Iraq";
    py "Ireland"; py "Israel"; py "Italy"; py "Jamaica"; py "Japan"; py "Jordan"; py "Kazakhstan"; py "Kenya"; py "Kiribati"; py "Kuwait";
    py "Kyrgyzstan"; py "Laos"; py "Latvia"; py "Lebanon"; py "Lesotho"; py "Liberia"; py "Libya"; py "Liechtenstein"; py "Lithuania"; py "Luxembourg";
    py "Madagascar"; py "Malawi"; py "Malaysia"; py "Maldives"; py "Mali"; py "Malta"; py "Marshall Islands"; py "Mauritania"; py "Mauritius"; py "Mexico";
    py "Micronesia"; py "Moldova"; py "Monaco"; py "Mongolia"; py "Montenegro"; py "Morocco"; py "Mozambique"; py "Myanmar"; py "Namibia"; py "Nauru";
    py "Nepal"; py "Netherlands"; py "New Zealand"; py "Nicaragua"; py "Niger"; py "Nigeria"; py "North Korea"; py "North Macedonia"; py "Norway"; py "Oman";
    py "Pakistan"; py "Palau"; py "Panama"; py "Papua New Guinea"; py "Paraguay"; py "Peru"; py "Philippines"; py "Poland"; py "Portugal"; py "Qatar";
    py "Romania"; py "Russia"; py "Rwanda"; py "Saint Kitts and Nevis"; py "Saint Lucia"; py "Saint Vincent and the Grenadines"; py "Samoa"; py "San Marino"; py "Sao Tome and Principe"; py "Saudi Arabia";
    py "Senegal"; py "Serbia"; py "Seychelles"; py "Sierra Leone"; py "Singapore"; py "Slovakia"; py "Slovenia"; py "Solomon Islands"; py "Somalia"; py "South Africa";
    py "South Korea"; py "South Sudan"; py "Spain"; py "Sri Lanka"; py "Sudan"; py "Suriname"; py "Sweden"; py "Switzerland"; py "Syria"; py "Tajikistan";
    py "Tanzania"; py "Thailand"; py "Timor-Leste"; py "Togo"; py "Tonga"; py "Trinidad and Tobago"; py "Tunisia"; py "Turkey"; py "Turkmenistan"; py "Tuvalu";
    py "Uganda"; py "Ukraine"; py "United Arab Emirates"; py "United Kingdom"; py "United States"; py "Uruguay"; py "Uzbekistan"; py "Vanuatu"; py "Venezuela"; py "Vietnam";
    py "Yemen"; py "Zambia"; py "Zimbabwe" ].

Definition OUT_JSON : pystr := py "public/symbols.json".
Definition CACHE_DIR : pystr := py "public/emblems".

(** [os.path.join(a, b)] on POSIX paths: an absolute [b] discards [a];
    otherwise the parts are joined by one slash, which is left out when
    [a] is empty or already ends with one. *)
Definition starts_with_slash (p : pystr) : bool :=
  match p with c :: _ => c =? slash | [] => false end.

Definition ends_with_slash (p : pystr) : bool :=
  starts_with_slash (rev p).

Definition os_path_join (a b : pystr) : pystr :=
  if starts_with_slash b then b
  else if negb (truthy a) || ends_with_slash a then a ++ b
  else a ++ [slash] ++ b.

(** ** Exceptions *)

(** The uncaught exceptions of the script that the embedding tracks. *)
Inductive exn := TypeError.

Inductive result (A : Type) :=
| Ok (a : A)
| Raise (e : exn).
Arguments Ok {A} a.
Arguments Raise {A} e.

Definition bind {A B} (c : result A) (k : A -> result B) : result B :=
  match c with
  | Ok a => k a
  | Raise e => Raise e
  end.

Notation "x <- c ;; k" := (bind c (fun x => k))
  (at level 100, c at next level, right associativity).

(** ** JSON values and Python dictionaries *)

(** What [json.load] returns.  An object carries the items of the Python
    dict it became, in insertion order. *)
Inductive json :=
| JNull
| JBool (b : bool)
| JNum (z : Z)
| JStr (s : pystr)
| JArr (l : list json)
| JObj (o : list (pystr * json)).

(** [o[k]] for a dict with string keys; [None] when [k not in o]. *)
Fixpoint obj_get (k : pystr) (o : list (pystr * json)) : option json :=
  match o with
  | [] => None
  | (k', v) :: o' => if pystr_eqb k k' then Some v else obj_get k o'
  end.

(** [for s in existing]: a list yields its elements, a dict its keys, a
    string its characters; the other values are not iterable. *)
Definition py_iter (j : json) : result (list json) :=
  match j with
  | JArr l => Ok l
  | JObj o => Ok (map (fun kv => JStr (fst kv)) o)
  | JStr s => Ok (map (fun c => JStr [c]) s)
  | JNull | JBool _ | JNum _ => Raise TypeError
  end.

(** Dictionary keys up to Python's [==]: [True == 1] and [False == 0]. *)
Inductive key :=
| KNone
| KInt (z : Z)
| KStr (s : pystr).

#[global] Instance key_eq_dec : EqDecision key.
Proof. solve_decision. Defined.

(** The key a value hashes to; lists and dicts are unhashable. *)
Definition hash_key (j : json) : result key :=
  match j with
  | JNull => Ok KNone
  | JBool b => Ok (KInt (if b then 1 else 0)%Z)
  | JNum z => Ok (KInt z)
  | JStr s => Ok (KStr s)
  | JArr _ | JObj _ => Raise TypeError
  end.

(** A dict: its items in insertion order, keys pairwise different. *)
Definition dict := list (key * json).

(** [d[k] = v]: an existing key keeps its place, a new one goes last. *)
Fixpoint dict_set (k : key) (v : json) (d : dict) : dict :=
  match d with
  | [] => [(k, v)]
  | (k', v') :: d' =>
      if bool_decide (k = k') then (k', v) :: d'
      else (k', v') :: dict_set k v d'
  end.

Fixpoint dict_get (k : key) (d : dict) : option json :=
  match d with
  | [] => None
  | (k', v) :: d' => if bool_decide (k = k') then Some v else dict_get k d'
  end.

(** [list(d.values())] *)
Definition values (d : dict) : list json := map snd d.

Definition keys (d : dict) : list key := map fst d.

(** [s["id"]] under the guard [isinstance(s, dict) and "id" in s]. *)
Definition record_id (s : json) : option json :=
  match s with
  | JObj o => obj_get (py "id") o
  | _ => None
  end.

(** [{s["id"]: s for s in existing if isinstance(s, dict) and "id" in s}],
    as the loop that fills the dict. *)
Fixpoint by_id_from (d : dict) (existing : list json) : result dict :=
  match existing with
  | [] => Ok d
  | s :: rest =>
      match record_id s with
      | Some i => k <- hash_key i ;; by_id_from (dict_set k s d) rest
      | None => by_id_from d rest
      end
  end.

Definition existing_by_id (existing : list json) : result dict :=
  by_id_from [] existing.

(** ** Output records *)

(** The dict literal [item] of [main]. *)
Record item := {
  item_id : pystr;
  item_name : pystr;
  item_category : pystr;
  item_viewBox : pystr;
  item_svg : pystr;
  item_source : pystr;
  item_license : pystr
}.

Definition item_json (r : item) : json :=
  JObj [ (py "id", JStr (item_id r));
         (py "name", JStr (item_name r));
         (py "category", JStr (item_category r));
         (py "viewBox", JStr (item_viewBox r));
         (py "svg", JStr (item_svg r));
         (py "source", JStr (item_source r));
         (py "license", JStr (item_license r)) ].

(** [for r in results: existing_by_id[r["id"]] = r] *)
Definition overlay (results : list item) (d : dict) : dict :=
  fold_left (fun d r => dict_set (KStr (item_id r)) (item_json r) d) results d.

(** ** The parsed SVG file *)

(** The nodes that [for child in root] goes through.  The parser is made
    with [remove_comments=False], so the comments are among them, like the
    processing instructions and the entity references the parser left in
    place. *)
Inductive node_kind :=
| ElementNode
| CommentNode
| InstructionNode
| EntityNode.

(** A child of the root: what it is, and the text
    [etree.tostring(child, encoding="unicode")]. *)
Record node := {
  kind : node_kind;
  markup : pystr
}.

(** The root element that [etree.parse(...).getroot()] delivers: its tag,
    its attributes, and its child nodes in document order. *)
Record element := {
  tag : pystr;
  attrib : list (pystr * pystr);
  children : list node
}.

(** [parts], once the loop [for child in root] is over. *)
Definition child_markup (root : element) : list pystr :=
  map markup (children root).

(** [root.get(name)] *)
Fixpoint attr_get (name : pystr) (a : list (pystr * pystr)) : option pystr :=
  match a with
  | [] => None
  | (n, v) :: a' => if pystr_eqb name n then Some v else attr_get name a'
  end.

(** [s.split(sep)] for a separator of one character. *)
Fixpoint split (sep : N) (s : pystr) : list pystr :=
  match s with
  | [] => [[]]
  | c :: s' =>
      if c =? sep then [] :: split sep s'
      else match split sep s' with
           | p :: ps => (c :: p) :: ps
           | [] => [[c]]
           end
  end.

(** [def local(tag): return tag.split("}")[-1]] *)
Definition local (t : pystr) : pystr := List.last (split rbrace t) [].

(** Truth value of [root.get(...)]: [None] and [""] are false. *)
Definition present (o : option pystr) : bool :=
  match o with
  | Some s => truthy s
  | None => false
  end.

(** [re.sub(r"[^0-9.\-]", "", w)] *)
Definition dimension_char (c : N) : bool :=
  is_digit c || (c =? dot) || (c =? hyphen).

Definition strip_units (s : pystr) : pystr := List.filter dimension_char s.

Record parsed := { viewBox : pystr; inner : pystr }.

(** The bounding box: the [viewBox] attribute when it is set and not
    empty, else [f"0 0 {w} {h}"] from [width] and [height] with
    everything but digits, dots and hyphens removed. *)
Definition bounding_box (root : element) : option pystr :=
  let viewBox := attr_get (py "viewBox") (attrib root) in
  if negb (present viewBox) then
    let w := attr_get (py "width") (attrib root) in
    let h := attr_get (py "height") (attrib root) in
    if present w && present h then
      let w := strip_units (default [] w) in
      let h := strip_units (default [] h) in
      Some (py "0 0 " ++ w ++ py " " ++ h)
    else None
  else viewBox.

(** The body of [extract_inner_svg] once the file is parsed. *)
Definition extract_root (root : element) : option parsed :=
  if negb (pystr_eqb (local (tag root)) (py "svg")) then None
  else
    match bounding_box root with
    | None => None
    | Some vb =>
        let inner := strip (concat (child_markup root)) in
        if negb (truthy inner) then None
        else Some {| viewBox := vb; inner := inner |}
    end.

(** ** The environment and the world *)

Abbreviation bytes := (list Byte.byte).

(** What one [session.get] on a file URL comes to. *)
Inductive http_outcome :=
| Response (status_code : Z) (content : bytes)
| RequestException.

(** The effects the log keeps: a run of [commons_search_svg], a
    [session.get] of [download_svg], a [time.sleep] of its back-off (in
    seconds), a [nap()]. *)
Inductive event :=
| ELookup (country : pystr)
| EGet (url : pystr)
| ESleep (seconds : nat)
| ENap.

(** The dict [commons_search_svg] returns; [pageurl] may be [None].  The
    title is taken as the string it is for a page of the API; for a page
    without a title the look-up gives [None] for it, and
    [sanitize_filename] raises on it. *)
Record hit := {
  title : pystr;
  pageurl : option pystr;
  url : pystr
}.

(** Everything outside the script.  The remote answers may depend on
    all that happened before, hence on the log.  [etree_parse] and
    [json_load] give [None] where the library raises (or, for the
    parser, finds no root element).  The look-up is taken here by its
    result, a hit or [None], in the runs where it returns; how it comes to
    it, and what it raises, is in [Resolver] below.  [json_dump] and the
    writing of a file are taken where they succeed. *)
Record env := {
  commons_search_svg : list event -> pystr -> option hit;
  session_get : list event -> pystr -> http_outcome;
  etree_parse : bytes -> option element;
  json_load : bytes -> option json;
  json_dump : json -> bytes
}.

(** The files (regular files only, by path) and the log of effects. *)
Record world := {
  fs : gmap pystr bytes;
  log : list event
}.

Definition emit (e : event) (w : world) : world :=
  {| fs := fs w; log := log w ++ [e] |}.

Definition write_file (path : pystr) (content : bytes) (w : world) : world :=
  {| fs := <[path := content]> (fs w); log := log w |}.

Definition nap (w : world) : world := emit ENap w.

(** ** download_svg *)

(** [r.status_code in (429, 500, 502, 503, 504)] *)
Definition retry_status (sc : Z) : bool :=
  existsb (Z.eqb sc) [429; 500; 502; 503; 504]%Z.

(** The loop [for attempt in ...] of [download_svg] over the attempt
    numbers still to come. *)
Fixpoint download_attempts (E : env) (u dest : pystr) (attempts : list nat)
    (w : world) : bool * world :=
  match attempts with
  | [] => (false, w)
  | attempt :: rest =>
      let r := session_get E (log w) u in
      let w := emit (EGet u) w in
      match r with
      | Response sc content =>
          if (sc =? 200)%Z then (true, write_file dest content w)
          else if retry_status sc then
            download_attempts E u dest rest (emit (ESleep attempt) w)
          else if (sc =? 403)%Z then (false, w)
          else (false, w)
      | RequestException =>
          download_attempts E u dest rest (emit (ESleep attempt) w)
      end
  end.

(** [range(1, 5)] *)
Definition download_svg (E : env) (u dest : pystr) (w : world) : bool * world :=
  download_attempts E u dest (seq 1 4) w.

(** ** extract_inner_svg *)

(** Any exception (no such file, a parse failure, no root) ends in the
    handler, which returns [None]. *)
Definition extract_inner_svg (E : env) (svg_path : pystr) (w : world)
    : option parsed :=
  match fs w !! svg_path with
  | None => None
  | Some content =>
      match etree_parse E content with
      | None => None
      | Some root => extract_root root
      end
  end.

(** ** main *)

(** The counters [ok, skipped, failed] and the list [results]. *)
Record loop_state := {
  results : list item;
  ok : nat;
  skipped : nat;
  failed : nat
}.

Definition init : loop_state :=
  {| results := []; ok := 0; skipped := 0; failed := 0 |}.

(** [failed += 1; continue] *)
Definition fail (st : loop_state) : loop_state :=
  {| results := results st; ok := ok st; skipped := skipped st;
     failed := S (failed st) |}.

(** [results.append(item); ok += 1] *)
Definition append (r : item) (st : loop_state) : loop_state :=
  {| results := results st ++ [r]; ok := S (ok st); skipped := skipped st;
     failed := failed st |}.

(** [os.path.exists(dest) and os.path.getsize(dest) > 0], for the regular
    files the world holds.  A directory at [dest] passes the test of the
    script as well; the world holds no directory, so what is said below of
    a destination that is no cache hit is said of a destination that is a
    file, or of [cached] itself. *)
Definition cached (dest : pystr) (w : world) : bool :=
  match fs w !! dest with
  | Some content => (0 <? length content)%nat
  | None => false
  end.

(** [pageurl or f"https://commons.wikimedia.org/wiki/{safe}"] *)
Definition source_of (h : hit) (safe : pystr) : pystr :=
  if present (pageurl h) then default [] (pageurl h)
  else py "https://commons.wikimedia.org/wiki/" ++ safe.

(** The en dash of the display name. *)
Definition en_dash : N := 8211.

Definition make_item (country : pystr) (h : hit) (safe : pystr) (p : parsed)
    : item :=
  {| item_id := sym_id country;
     item_name := country ++ py " " ++ [en_dash] ++ py " National emblem";
     item_category := py "National Emblems";
     item_viewBox := viewBox p;
     item_svg := inner p;
     item_source := source_of h safe;
     item_license := py "Check file page on Wikimedia Commons" |}.

(** The fetch stage of the loop body: a cached file is taken as it is,
    anything else is downloaded, with a [nap()] after a success. *)
Definition fetch (E : env) (u dest : pystr) (w : world) : bool * world :=
  if cached dest w then (true, w)
  else
    match download_svg E u dest w with
    | (true, w') => (true, nap w')
    | (false, w') => (false, w')
    end.

(** One turn of [for i, country in enumerate(UN_COUNTRIES, 1)]. *)
Definition process (E : env) (country : pystr) (st : loop_state) (w : world)
    : loop_state * world :=
  let found := commons_search_svg E (log w) country in
  let w := emit (ELookup country) w in
  match found with
  | None => (fail st, w)
  | Some h =>
      let safe := sanitize_filename (title h) in
      let dest := os_path_join CACHE_DIR safe in
      match fetch E (url h) dest w with
      | (false, w) => (fail st, w)
      | (true, w) =>
          match extract_inner_svg E dest w with
          | None => (fail st, w)
          | Some p => (append (make_item country h safe p) st, w)
          end
      end
  end.

Fixpoint main_loop (E : env) (countries : list pystr) (st : loop_state)
    (w : world) : loop_state * world :=
  match countries with
  | [] => (st, w)
  | country :: rest =>
      let '(st, w) := process E country st w in
      main_loop E rest st w
  end.

(** The existing collection: [[]] when the file is missing or when
    [json.load] raises. *)
Definition load_existing (E : env) (w : world) : json :=
  match fs w !! OUT_JSON with
  | Some content =>
      match json_load E content with
      | Some j => j
      | None => JArr []
      end
  | None => JArr []
  end.

(** What a run leaves behind: the records it produced, the counters, the
    list handed to [json.dump], and the world after the write.  [main]
    raises what the lines 242 to 250 raise.  After them it follows the
    runs in which every look-up returns and every write succeeds.  An
    exception of a look-up, of [open] or of [json.dump] is not caught by
    the script and ends the run where it is raised, with nothing or with
    part of the list written; such runs are not among the runs of [main]
    here, and what is proved of a run that ends, [main E w = Ok s], is
    proved of the runs of the script that end. *)
Record run := {
  produced : loop_state;
  merged : list json;
  final : world
}.

Definition main (E : env) (w : world) : result run :=
  let existing := load_existing E w in
  l <- py_iter existing ;;
  existing_by_id <- existing_by_id l ;;
  let '(st, w) := main_loop E UN_COUNTRIES init w in
  let merged := values (overlay (results st) existing_by_id) in
  Ok {| produced := st;
        merged := merged;
        final := write_file OUT_JSON (json_dump E (JArr merged)) w |}.

(** ** The look-up on Wikimedia Commons

    [get_json], [commons_file_info_by_title] and [commons_search_svg], over
    the answers of the Commons API.  In [main] above their combined effect
    is the field [commons_search_svg] of the environment; here they are
    spelled out.  The values of the API are JSON of any shape, so the
    operations of Python on them can raise, and nothing catches what they
    raise. *)

Module Resolver.

(** *** More of Python's strings *)

Fixpoint startswith (pre s : pystr) : bool :=
  match pre, s with
  | [], _ => true
  | _ :: _, [] => false
  | a :: pre', b :: s' => (a =? b) && startswith pre' s'
  end.

Definition endswith (suf s : pystr) : bool := startswith (rev suf) (rev s).

(** [sub in s] *)
Fixpoint contains (sub s : pystr) : bool :=
  startswith sub s
  || match s with
     | [] => false
     | _ :: s' => contains sub s'
     end.

(** [s.replace(old, new, 1)] *)
Fixpoint replace_first (old new s : pystr) : pystr :=
  if startswith old s then new ++ drop (length old) s
  else match s with
       | [] => []
       | c :: s' => c :: replace_first old new s'
       end.

(** *** Python's operations on JSON values *)

Inductive error := AttributeError | KeyError | TypeError | IndexError.

(** [bool(j)] *)
Definition truth (j : json) : bool :=
  match j with
  | JNull => false
  | JBool b => b
  | JNum z => negb (z =? 0)%Z
  | JStr s => truthy s
  | JArr l => match l with [] => false | _ => true end
  | JObj o => match o with [] => false | _ => true end
  end.

(** [a or b] *)
Definition py_or (a b : json) : json := if truth a then a else b.

(** [j.get(key, default)]: only a dict has [get]. *)
Definition get (j : json) (key : pystr) (default : json) : error + json :=
  match j with
  | JObj o => inr (from_option id default (obj_get key o))
  | _ => inl AttributeError
  end.

(** [j[0]] *)
Definition first (j : json) : error + json :=
  match j with
  | JArr (x :: _) => inr x
  | JArr [] => inl IndexError
  | JStr (c :: _) => inr (JStr [c])
  | JStr [] => inl IndexError
  | JObj _ => inl KeyError
  | JNull | JBool _ | JNum _ => inl TypeError
  end.

(** [for h in j] *)
Definition iterate (j : json) : error + list json :=
  match j with
  | JArr l => inr l
  | JObj o => inr (map (fun kv => JStr (fst kv)) o)
  | JStr s => inr (map (fun c => JStr [c]) s)
  | JNull | JBool _ | JNum _ => inl TypeError
  end.

(** A method of [str] called on [j]. *)
Definition as_str (j : json) : error + pystr :=
  match j with
  | JStr s => inr s
  | _ => inl AttributeError
  end.

(** [needle in j] for a string [needle]: a substring of a string, an
    element of a list, a key of a dict. *)
Definition str_in (needle : pystr) (j : json) : error + bool :=
  match j with
  | JStr s => inr (contains needle s)
  | JArr l =>
      inr (existsb (fun x => match x with
                             | JStr s => pystr_eqb needle s
                             | _ => false
                             end) l)
  | JObj o => inr (existsb (fun kv => pystr_eqb needle (fst kv)) o)
  | JNull | JBool _ | JNum _ => inl TypeError
  end.

(** *** The API and the log of calls *)

Abbreviation params := (list (pystr * pystr)).

(** What one [session.get] on the API comes to: a response with its
    status, its [Content-Type] ([""] without one) and what [resp.json()]
    gives ([None] where it raises), or a request exception. *)
Inductive api_outcome :=
| ApiResponse (status_code : Z) (content_type : pystr) (body : option json)
| ApiException.

Inductive call :=
| CGet (p : params)
| CSleep (seconds : nat)
| CNap.

(** The API: its answer may depend on all the calls before. *)
Abbreviation api := (list call -> params -> api_outcome).

(** A computation that ends with a value and a longer log, or raises. *)
Inductive outcome (A : Type) :=
| Done (a : A) (h : list call)
| Raised (e : error).
Arguments Done {A} a h.
Arguments Raised {A} e.

(** *** get_json *)

Fixpoint get_json_attempts (srv : api) (p : params) (attempts : list nat)
    (h : list call) : json * list call :=
  match attempts with
  | [] => (JNull, h)
  | attempt :: rest =>
      let r := srv h p in
      let h := h ++ [CGet p] in
      match r with
      | ApiResponse sc ctype body =>
          if retry_status sc then
            get_json_attempts srv p rest (h ++ [CSleep attempt])
          else if negb (contains (py "application/json") ctype) then
            get_json_attempts srv p rest (h ++ [CSleep attempt])
          else
            match body with
            | Some j => (j, h)
            | None => get_json_attempts srv p rest (h ++ [CSleep attempt])
            end
      | ApiException =>
          get_json_attempts srv p rest (h ++ [CSleep attempt])
      end
  end.

(** [max_retries=5]; Python's [None] is [JNull]. *)
Definition get_json (srv : api) (p : params) (h : list call)
    : json * list call :=
  get_json_attempts srv p (seq 1 5) h.

(** *** commons_file_info_by_title *)

(** [(page_title, pageurl, original_url)] *)
Record info := {
  page_title : json;
  page_url : json;
  original_url : pystr
}.

Definition title_params (t : pystr) : params :=
  [ (py "action", py "query");
    (py "format", py "json");
    (py "formatversion", py "2");
    (py "prop", py "imageinfo|info");
    (py "titles", py "File:" ++ t);
    (py "inprop", py "url");
    (py "iiprop", py "url|mediatype|mime");
    (py "origin", py "*") ].

(** The body of the function once [get_json] has answered. *)
Definition file_info_of (data : json) : error + option info :=
  if negb (truth data) then inr None
  else
    match get data (py "query") (JObj []) with
    | inl e => inl e
    | inr query =>
    match get query (py "pages") (JArr []) with
    | inl e => inl e
    | inr pages =>
    if negb (truth pages) then inr None
    else
      match first pages with
      | inl e => inl e
      | inr page =>
      match get page (py "missing") JNull with
      | inl e => inl e
      | inr missing =>
      if truth missing then inr None
      else
        (* [page] is a dict from here on *)
        match get page (py "fullurl") JNull,
              get page (py "canonicalurl") JNull,
              get page (py "imageinfo") (JArr []),
              get page (py "title") JNull with
        | inr fullurl, inr canonicalurl, inr imageinfo, inr ttl =>
            let pageurl := py_or fullurl canonicalurl in
            if negb (truth imageinfo) then inr None
            else
              match first imageinfo with
              | inl e => inl e
              | inr ii =>
              match get ii (py "url") (JStr []) with
              | inl e => inl e
              | inr u =>
              match get ii (py "mime") (JStr []) with
              | inl e => inl e
              | inr mime =>
              match as_str u with
              | inl e => inl e
              | inr us =>
                  if endswith (py ".svg") (lower us) then
                    inr (Some {| page_title := ttl; page_url := pageurl;
                                 original_url := us |})
                  else
                    match str_in (py "svg") mime with
                    | inl e => inl e
                    | inr true =>
                        inr (Some {| page_title := ttl; page_url := pageurl;
                                     original_url := us |})
                    | inr false => inr None
                    end
              end end end end
        | inl e, _, _, _ | _, inl e, _, _ | _, _, inl e, _ | _, _, _, inl e =>
            inl e
        end
      end end
    end end.

Definition commons_file_info_by_title (srv : api) (t : pystr) (h : list call)
    : outcome (option info) :=
  let '(data, h) := get_json srv (title_params t) h in
  match file_info_of data with
  | inl e => Raised e
  | inr r => Done r h
  end.

(** *** commons_search_svg *)

Definition patterns (country : pystr) : list pystr :=
  [ py "Coat of arms of " ++ country ++ py ".svg";
    py "Emblem of " ++ country ++ py ".svg";
    py "State emblem of " ++ country ++ py ".svg";
    py "National emblem of " ++ country ++ py ".svg" ].

Definition query_variants (country : pystr) : list pystr :=
  [ py "intitle:" ++ [34] ++ py "Coat of arms of " ++ country ++ [34]
      ++ py " filetype:svg";
    py "intitle:" ++ [34] ++ py "Emblem of " ++ country ++ [34]
      ++ py " filetype:svg";
    py "intitle:" ++ [34] ++ country ++ [34] ++ py " coat arms filetype:svg";
    py "intitle:" ++ [34] ++ country ++ [34] ++ py " emblem filetype:svg" ].

Definition search_params (q : pystr) : params :=
  [ (py "action", py "query");
    (py "format", py "json");
    (py "formatversion", py "2");
    (py "list", py "search");
    (py "srsearch", q);
    (py "srnamespace", py "6");
    (py "srlimit", py "10");
    (py "origin", py "*") ].

(** [for t in patterns]: the first title that resolves ends the search,
    every other one is followed by a nap. *)
Fixpoint exact_tries (srv : api) (ts : list pystr) (h : list call)
    : outcome (option info) :=
  match ts with
  | [] => Done None h
  | t :: rest =>
      match commons_file_info_by_title srv t h with
      | Raised e => Raised e
      | Done (Some res) h => Done (Some res) h
      | Done None h => exact_tries srv rest (h ++ [CNap])
      end
  end.

(** [for h in hits] *)
Fixpoint scan_hits (srv : api) (hits : list json) (h : list call)
    : outcome (option info) :=
  match hits with
  | [] => Done None h
  | hit :: rest =>
      match get hit (py "title") (JStr []) with
      | inl e => Raised e
      | inr t =>
          match as_str t with
          | inl e => Raised e
          | inr ts =>
              if negb (startswith (py "File:") ts)
                 || negb (endswith (py ".svg") (lower ts))
              then scan_hits srv rest h
              else
                match commons_file_info_by_title srv
                        (replace_first (py "File:") (py "") ts) h with
                | Raised e => Raised e
                | Done (Some res) h => Done (Some res) h
                | Done None h => scan_hits srv rest h
                end
          end
      end
  end.

(** [for q in query_variants] *)
Fixpoint searches (srv : api) (qs : list pystr) (h : list call)
    : outcome (option info) :=
  match qs with
  | [] => Done None h
  | q :: rest =>
      let '(data, h) := get_json srv (search_params q) h in
      if negb (truth data) then searches srv rest (h ++ [CNap])
      else
        match get data (py "query") (JObj []) with
        | inl e => Raised e
        | inr query =>
            match get query (py "search") (JArr []) with
            | inl e => Raised e
            | inr found =>
                match iterate found with
                | inl e => Raised e
                | inr hits =>
                    match scan_hits srv hits h with
                    | Raised e => Raised e
                    | Done (Some res) h => Done (Some res) h
                    | Done None h => searches srv rest (h ++ [CNap])
                    end
                end
            end
        end
  end.

Definition commons_search_svg (srv : api) (country : pystr) (h : list call)
    : outcome (option info) :=
  match exact_tries srv (patterns country) h with
  | Raised e => Raised e
  | Done (Some res) h => Done (Some res) h
  | Done None h => searches srv (query_variants country) h
  end.

End Resolver.

(** * Properties *)

(** ** File names *)

(** The characters of a safe file name, spelled out. *)
Definition safe_char (c : N) : Prop :=
  65 <= c <= 90 \/ 97 <= c <= 122 \/ 48 <= c <= 57
  \/ c = 95 \/ c = 46 \/ c = 45.

Lemma in_range_spec lo hi c : in_range lo hi c = true <-> lo <= c <= hi.
Proof.
  unfold in_range. rewrite andb_true_iff, !N.leb_le. tauto.
Qed.

Lemma filename_char_spec c : filename_char c = true <-> safe_char c.
Proof.
  unfold filename_char, safe_char, is_upper, is_lower, is_digit,
    underscore, dot, hyphen.
  rewrite !orb_true_iff, !in_range_spec, !N.eqb_eq. tauto.
Qed.

Lemma sanitize_filename_lookup name i :
  sanitize_filename name !! i
  = (fun c => if filename_char c then c else underscore) <$> name !! i.
Proof.
  unfold sanitize_filename.
  change (map ?f name) with (f <$> name).
  apply list_lookup_fmap.
Qed.

(** C10: [sanitize_filename] keeps the length of its input, yields only
    ASCII letters, digits, underscores, dots and hyphens, leaves such
    characters where they are and puts an underscore in the place of
    every other character. *)
Theorem sanitize_filename_spec (name : pystr) :
  length (sanitize_filename name) = length name
  /\ Forall safe_char (sanitize_filename name)
  /\ forall i c, name !! i = Some c ->
       (safe_char c -> sanitize_filename name !! i = Some c)
       /\ (~ safe_char c -> sanitize_filename name !! i = Some 95).
Proof.
  split; [apply length_map |]. split.
  - unfold sanitize_filename. induction name as [| c name IH]; simpl.
    + constructor.
    + constructor; [| exact IH].
      destruct (filename_char c) eqn:Hc.
      * now apply filename_char_spec.
      * unfold safe_char, underscore. lia.
  - intros i c Hi. rewrite sanitize_filename_lookup, Hi. simpl.
    split; intros Hc.
    + apply filename_char_spec in Hc. now rewrite Hc.
    + destruct (filename_char c) eqn:Hf; [| reflexivity].
      apply filename_char_spec in Hf. contradiction.
Qed.

(** ** Dictionaries *)

Section Dict.
Implicit Types (d : dict) (k : key) (v : json).

Lemma keys_dict_set k v d :
  keys (dict_set k v d)
  = if bool_decide (k ∈ keys d) then keys d else keys d ++ [k].
Proof.
  induction d as [| [k' v'] d IH]; simpl.
  - reflexivity.
  - destruct (bool_decide_reflect (k = k')) as [-> | Hne]; simpl.
    + rewrite bool_decide_eq_true_2; [reflexivity | apply list_elem_of_here].
    + fold (keys d) in *. fold (keys (dict_set k v d)). rewrite IH.
      destruct (bool_decide_reflect (k ∈ keys d)) as [Hin | Hnin].
      * rewrite bool_decide_eq_true_2; [reflexivity |].
        now apply list_elem_of_further.
      * rewrite bool_decide_eq_false_2; [reflexivity |].
        rewrite elem_of_cons. tauto.
Qed.

Lemma keys_dict_set_prefix k v d : keys d `prefix_of` keys (dict_set k v d).
Proof.
  rewrite keys_dict_set. case_bool_decide.
  - reflexivity.
  - now apply prefix_app_r.
Qed.

Lemma NoDup_keys_dict_set k v d :
  NoDup (keys d) -> NoDup (keys (dict_set k v d)).
Proof.
  intros Hd. rewrite keys_dict_set. case_bool_decide as Hin; [exact Hd |].
  apply NoDup_app. split; [exact Hd |]. split.
  - intros x Hx Hx'. apply list_elem_of_singleton in Hx'. now subst.
  - apply NoDup_singleton.
Qed.

Lemma dict_get_dict_set k v d k' :
  dict_get k' (dict_set k v d)
  = if bool_decide (k' = k) then Some v else dict_get k' d.
Proof.
  induction d as [| [k0 v0] d IH]; simpl.
  - repeat case_bool_decide; congruence.
  - destruct (bool_decide_reflect (k = k0)) as [-> | Hne]; simpl.
    + repeat case_bool_decide; congruence.
    + rewrite IH. repeat case_bool_decide; congruence.
Qed.


Lemma elem_of_dict_get k v d :
  NoDup (keys d) -> (k, v) ∈ d -> dict_get k d = Some v.
Proof.
  induction d as [| [k0 v0] d IH]; simpl; intros Hnd Hin.
  - now apply elem_of_nil in Hin.
  - apply NoDup_cons in Hnd as [Hk0 Hnd].
    apply elem_of_cons in Hin as [[= -> ->] | Hin].
    + now rewrite bool_decide_eq_true_2.
    + rewrite bool_decide_eq_false_2; [now apply IH |].
      intros ->. apply Hk0.
      apply (list_elem_of_fmap_2 fst) in Hin. exact Hin.
Qed.

(** With distinct keys, looking a key up and reading the value at the
    place of the key are the same. *)
Lemma dict_get_at k d i :
  NoDup (keys d) -> keys d !! i = Some k -> dict_get k d = values d !! i.
Proof.
  revert i. induction d as [| [k0 v0] d IH]; simpl; intros i Hnd Hi.
  - discriminate.
  - apply NoDup_cons in Hnd as [Hk0 Hnd]. destruct i as [| i]; simpl in *.
    + injection Hi as ->. now rewrite bool_decide_eq_true_2.
    + rewrite bool_decide_eq_false_2; [now apply IH |].
      intros ->. apply Hk0. eapply list_elem_of_lookup_2. exact Hi.
Qed.

Lemma values_elem_of v d : v ∈ values d -> exists k, (k, v) ∈ d.
Proof.
  unfold values. change (map snd d) with (snd <$> d).
  intros ([k v'] & -> & Hin)%list_elem_of_fmap. now exists k.
Qed.


Lemma elem_of_dict_set k v d k' v' :
  (k', v') ∈ dict_set k v d -> (k', v') ∈ d \/ (k' = k /\ v' = v).
Proof.
  induction d as [| [k0 v0] d IH]; simpl.
  - intros [= -> ->]%list_elem_of_singleton. now right.
  - case_bool_decide as Hk.
    + subst. intros [[= -> ->] | Hin]%elem_of_cons.
      * now right.
      * left. now apply list_elem_of_further.
    + intros [[= -> ->] | Hin]%elem_of_cons.
      * left. apply list_elem_of_here.
      * destruct (IH Hin) as [H | H]; [left | now right].
        now apply list_elem_of_further.
Qed.

End Dict.

(** ** The identifier mapping *)

(** The dictionary key of a record: the key its ["id"] hashes to. *)
Definition key_of (v : json) : option key :=
  match record_id v with
  | Some i => match hash_key i with Ok k => Some k | Raise _ => None end
  | None => None
  end.

(** The invariant of [existing_by_id]: keys pairwise different, and
    every value filed under the key of its own identifier. *)
Definition well_keyed (d : dict) : Prop :=
  NoDup (keys d) /\ forall k v, (k, v) ∈ d -> key_of v = Some k.

Lemma well_keyed_nil : well_keyed [].
Proof.
  split; [apply NoDup_nil_2 |]. intros k v H. now apply elem_of_nil in H.
Qed.

Lemma well_keyed_dict_set k v d :
  well_keyed d -> key_of v = Some k -> well_keyed (dict_set k v d).
Proof.
  intros [Hnd Hk] Hv. split; [now apply NoDup_keys_dict_set |].
  intros k' v' Hin. apply elem_of_dict_set in Hin as [Hin | [-> ->]]; auto.
Qed.

Lemma key_of_item_json r : key_of (item_json r) = Some (KStr (item_id r)).
Proof. reflexivity. Qed.

(** One turn of the comprehension, by the key of the entry. *)
Lemma by_id_from_cons d s rest :
  by_id_from d (s :: rest)
  = match record_id s with
    | None => by_id_from d rest
    | Some i =>
        match hash_key i with
        | Ok k => by_id_from (dict_set k s d) rest
        | Raise e => Raise e
        end
    end.
Proof. simpl. destruct (record_id s); [| reflexivity]. now destruct (hash_key j). Qed.

Lemma by_id_from_app d l1 l2 :
  by_id_from d (l1 ++ l2) = (d1 <- by_id_from d l1 ;; by_id_from d1 l2).
Proof.
  revert d. induction l1 as [| s l1 IH]; intros d; [reflexivity |].
  rewrite <- app_comm_cons, !by_id_from_cons.
  destruct (record_id s) as [i |]; [| apply IH].
  destruct (hash_key i); [apply IH | reflexivity].
Qed.

Lemma by_id_from_invariant l : forall d d',
  well_keyed d -> by_id_from d l = Ok d' ->
  well_keyed d' /\ keys d `prefix_of` keys d'.
Proof.
  induction l as [| s l IH]; intros d d' Hd.
  - intros [= <-]. split; [exact Hd | reflexivity].
  - rewrite by_id_from_cons.
    destruct (record_id s) as [i |] eqn:Hi; [| now apply IH].
    destruct (hash_key i) as [k | e] eqn:Hk; [| discriminate].
    intros Hrun. apply IH in Hrun as [Hwk Hpre].
    + split; [exact Hwk |].
      etransitivity; [apply (keys_dict_set_prefix k s) | exact Hpre].
    + apply well_keyed_dict_set; [exact Hd |].
      unfold key_of. now rewrite Hi, Hk.
Qed.



(** An entry without an identifier changes nothing, wherever it stands. *)
Lemma by_id_from_drop x l1 l2 d :
  record_id x = None ->
  by_id_from d (l1 ++ x :: l2) = by_id_from d (l1 ++ l2).
Proof.
  intros Hx. rewrite !by_id_from_app.
  destruct (by_id_from d l1) as [d1 | e]; [| reflexivity].
  cbn [bind]. now rewrite by_id_from_cons, Hx.
Qed.

(** The comprehension raises only on an unhashable identifier. *)
Lemma by_id_from_total l : forall d,
  (forall x i, x ∈ l -> record_id x = Some i -> exists k, hash_key i = Ok k) ->
  exists d', by_id_from d l = Ok d'.
Proof.
  induction l as [| s l IH]; intros d Hl; [now exists d |].
  rewrite by_id_from_cons.
  assert (Hrest : forall x i, x ∈ l -> record_id x = Some i ->
                               exists k, hash_key i = Ok k).
  { intros x i Hx. apply Hl. now apply list_elem_of_further. }
  destruct (record_id s) as [i |] eqn:Hi; [| now apply IH].
  destruct (Hl s i (list_elem_of_here _ _) Hi) as [k ->]. now apply IH.
Qed.

Lemma dict_set_fresh k v d :
  k ∉ keys d -> dict_set k v d = d ++ [(k, v)].
Proof.
  induction d as [| [k0 v0] d IH]; simpl; intros Hk; [reflexivity |].
  apply not_elem_of_cons in Hk as [Hne Hk].
  rewrite bool_decide_eq_false_2 by exact Hne. now rewrite IH.
Qed.

(** On a list of records with pairwise different keys, as [main] writes
    it, the comprehension keeps every record at its place. *)
Lemma by_id_from_clean l : forall d,
  NoDup (keys d ++ omap key_of l) ->
  Forall (fun x => is_Some (key_of x)) l ->
  exists d', by_id_from d l = Ok d'
             /\ values d' = values d ++ l
             /\ keys d' = keys d ++ omap key_of l.
Proof.
  induction l as [| s l IH]; intros d Hnd Hall.
  - exists d. unfold values, keys. simpl. now rewrite !app_nil_r.
  - apply Forall_cons in Hall as [[k Hk] Hall].
    assert (Hs : by_id_from d (s :: l) = by_id_from (dict_set k s d) l).
    { rewrite by_id_from_cons. unfold key_of in Hk.
      destruct (record_id s) as [i |]; [| discriminate].
      destruct (hash_key i) as [k0 | e]; [| discriminate]. congruence. }
    rewrite Hs. simpl in *. rewrite Hk in *.
    assert (Hfresh : k ∉ keys d).
    { apply NoDup_app in Hnd as (_ & Hdis & _). intros Hin.
      apply (Hdis k Hin). apply list_elem_of_here. }
    rewrite (dict_set_fresh k s d Hfresh).
    destruct (IH (d ++ [(k, s)])) as (d' & Hrun & Hv & Hks).
    + unfold keys. rewrite map_app. simpl. now rewrite <- app_assoc.
    + exact Hall.
    + exists d'. split; [exact Hrun |].
      rewrite Hv, Hks. unfold values, keys. rewrite !map_app. simpl.
      now rewrite <- !app_assoc.
Qed.

(** ** Overlaying the new records *)

Definition item_key (r : item) : key := KStr (item_id r).

Lemma overlay_cons r rs d :
  overlay (r :: rs) d = overlay rs (dict_set (item_key r) (item_json r) d).
Proof. reflexivity. Qed.

Lemma overlay_invariant rs : forall d,
  well_keyed d ->
  well_keyed (overlay rs d) /\ keys d `prefix_of` keys (overlay rs d).
Proof.
  induction rs as [| r rs IH]; intros d Hd.
  - split; [exact Hd | reflexivity].
  - rewrite overlay_cons.
    destruct (IH (dict_set (item_key r) (item_json r) d)) as [Hwk Hpre].
    + apply well_keyed_dict_set; [exact Hd | apply key_of_item_json].
    + split; [exact Hwk |].
      etransitivity; [apply keys_dict_set_prefix | exact Hpre].
Qed.

Lemma overlay_get_other k rs : forall d,
  k ∉ item_key <$> rs -> dict_get k (overlay rs d) = dict_get k d.
Proof.
  induction rs as [| r rs IH]; intros d Hk; [reflexivity |].
  rewrite fmap_cons in Hk. apply not_elem_of_cons in Hk as [Hne Hk].
  rewrite overlay_cons, IH by exact Hk.
  rewrite dict_get_dict_set. now rewrite bool_decide_eq_false_2.
Qed.

#[global] Instance KStr_inj : Inj (=) (=) KStr.
Proof. intros a b [= ->]. reflexivity. Qed.

Lemma overlay_get_new r rs : forall d,
  NoDup (item_id <$> rs) -> r ∈ rs ->
  dict_get (item_key r) (overlay rs d) = Some (item_json r).
Proof.
  induction rs as [| r0 rs IH]; intros d Hnd Hin.
  - now apply elem_of_nil in Hin.
  - rewrite fmap_cons in Hnd. apply NoDup_cons in Hnd as [Hr0 Hnd].
    rewrite overlay_cons. apply elem_of_cons in Hin as [-> | Hin].
    + rewrite overlay_get_other.
      * rewrite dict_get_dict_set. now rewrite bool_decide_eq_true_2.
      * intros (r' & Heq & Hr')%list_elem_of_fmap. apply Hr0.
        apply list_elem_of_fmap. exists r'. split; [| exact Hr'].
        now injection Heq.
    + now apply IH.
Qed.

(** New records whose keys are all fresh are appended in their order. *)
Lemma overlay_fresh rs : forall d,
  NoDup (keys d ++ (item_key <$> rs)) ->
  values (overlay rs d) = values d ++ (item_json <$> rs).
Proof.
  induction rs as [| r rs IH]; intros d Hnd.
  - simpl. now rewrite app_nil_r.
  - rewrite overlay_cons, fmap_cons in *.
    assert (Hfresh : item_key r ∉ keys d).
    { apply NoDup_app in Hnd as (_ & Hdis & _). intros Hin.
      apply (Hdis _ Hin). apply list_elem_of_here. }
    rewrite dict_set_fresh by exact Hfresh. rewrite IH.
    + unfold values. rewrite map_app. simpl. now rewrite <- app_assoc.
    + unfold keys. rewrite map_app. simpl. now rewrite <- app_assoc.
Qed.

(** ** The records of one run *)

Lemma process_results E country st w :
  results (process E country st w).1 = results st
  \/ exists r, results (process E country st w).1 = results st ++ [r]
               /\ item_id r = sym_id country.
Proof.
  unfold process.
  destruct (commons_search_svg E (log w) country) as [h |]; [| now left].
  destruct (fetch _ _ _ _) as [[] w1]; [| now left].
  destruct (extract_inner_svg _ _ _) as [p |]; [| now left].
  right. eexists. split; reflexivity.
Qed.

(** The identifiers added by the loop are those of a sub-list of the
    countries, in the order of the list. *)
Lemma main_loop_ids E countries : forall st w,
  exists cs, cs `sublist_of` countries
    /\ item_id <$> results (main_loop E countries st w).1
       = (item_id <$> results st) ++ (sym_id <$> cs).
Proof.
  induction countries as [| c countries IH]; intros st w; simpl.
  - exists []. split; [constructor | now rewrite app_nil_r].
  - destruct (process E c st w) as [st1 w1] eqn:Hp.
    destruct (IH st1 w1) as (cs & Hsub & Hids).
    destruct (process_results E c st w) as [Hsame | (r & Hadd & Hid)];
      rewrite Hp in *; simpl in *.
    + exists cs. split; [now apply sublist_cons |]. now rewrite Hids, Hsame.
    + exists (c :: cs). split; [now apply sublist_skip |].
      rewrite Hids, Hadd, fmap_app. simpl. now rewrite Hid, <- app_assoc.
Qed.

Lemma sym_id_UN_COUNTRIES_NoDup : NoDup (sym_id <$> UN_COUNTRIES).
Proof. apply (bool_decide_unpack _). vm_compute. reflexivity. Qed.

Lemma main_loop_NoDup E w :
  NoDup (item_id <$> results (main_loop E UN_COUNTRIES init w).1).
Proof.
  destruct (main_loop_ids E UN_COUNTRIES init w) as (cs & Hsub & ->).
  simpl. apply (sublist_NoDup _ (sym_id <$> UN_COUNTRIES)).
  - apply sym_id_UN_COUNTRIES_NoDup.
  - apply (fmap_sublist sym_id), Hsub.
Qed.

(** What a run that ends without an exception went through. *)
Lemma main_inv E w s :
  main E w = Ok s ->
  exists l d0,
    py_iter (load_existing E w) = Ok l
    /\ existing_by_id l = Ok d0
    /\ produced s = (main_loop E UN_COUNTRIES init w).1
    /\ merged s = values (overlay (results (produced s)) d0)
    /\ final s = write_file OUT_JSON (json_dump E (JArr (merged s)))
                   (main_loop E UN_COUNTRIES init w).2.
Proof.
  unfold main.
  destruct (py_iter (load_existing E w)) as [l | e] eqn:Hl; [| discriminate].
  cbn [bind]. destruct (existing_by_id l) as [d0 | e] eqn:Hd; [| discriminate].
  cbn [bind]. destruct (main_loop E UN_COUNTRIES init w) as [st w1].
  intros [= <-]. exists l, d0. simpl. repeat split; auto.
Qed.

(** ** The merged list *)

(** The identifier of a record decides its key. *)
Definition key_of_id (o : option json) : option key :=
  match o with
  | Some i => match hash_key i with Ok k => Some k | Raise _ => None end
  | None => None
  end.

Lemma key_of_record_id v : key_of v = key_of_id (record_id v).
Proof. reflexivity. Qed.

Lemma well_keyed_key_of d :
  well_keyed d -> key_of <$> values d = Some <$> keys d.
Proof.
  intros [_ Hk]. induction d as [| [k v] d IH]; [reflexivity |].
  unfold values, keys in *. simpl. f_equal.
  - apply Hk. apply list_elem_of_here.
  - apply IH. intros k' v' Hin. apply Hk. now apply list_elem_of_further.
Qed.

Lemma well_keyed_ids_NoDup d :
  well_keyed d -> NoDup (record_id <$> values d).
Proof.
  intros Hd. apply (NoDup_fmap_1 key_of_id).
  rewrite <- list_fmap_compose.
  change (key_of_id ∘ record_id) with key_of.
  rewrite (well_keyed_key_of d Hd).
  apply (NoDup_fmap_2 Some), Hd.
Qed.

Lemma well_keyed_records d v :
  well_keyed d -> v ∈ values d -> is_Some (record_id v).
Proof.
  intros [_ Hk] (k & Hin)%values_elem_of. specialize (Hk k v Hin).
  unfold key_of in Hk. destruct (record_id v); [eauto | discriminate].
Qed.

Lemma item_keys_NoDup rs :
  NoDup (item_id <$> rs) -> NoDup (item_key <$> rs).
Proof.
  intros H. change item_key with (KStr ∘ item_id).
  rewrite list_fmap_compose. apply (NoDup_fmap_2 KStr), H.
Qed.

Lemma omap_key_of_lookup l i x k :
  Forall (fun x => is_Some (key_of x)) l ->
  l !! i = Some x -> key_of x = Some k -> omap key_of l !! i = Some k.
Proof.
  revert i. induction l as [| y l IH]; intros i Hall Hi Hk; [discriminate |].
  apply Forall_cons in Hall as [[ky Hy] Hall]. simpl. rewrite Hy.
  destruct i as [| i]; simpl in *.
  - injection Hi as ->. congruence.
  - now apply IH.
Qed.



(** The list a run writes is the list of values of a well-keyed dict. *)
Lemma main_merged_well_keyed E w s :
  main E w = Ok s -> exists d, well_keyed d /\ merged s = values d.
Proof.
  intros Hmain.
  destruct (main_inv E w s Hmain) as (l & d0 & _ & Hd0 & _ & Hm & _).
  destruct (by_id_from_invariant l [] d0 well_keyed_nil Hd0) as [Hwk0 _].
  destruct (overlay_invariant (results (produced s)) d0 Hwk0) as [Hwk _].
  eauto.
Qed.

(** C1: the list a run writes holds only records with an identifier, no
    identifier twice; a record produced in the run whose identifier is
    already a key of the mapping built from the existing list stands at
    the place of that key, and when the existing list is made of records
    with pairwise different keys (as every list written by [main] is),
    that place is the place of the old record in the list. *)
Theorem merged_ids_unique E w s :
  main E w = Ok s ->
  (forall v, v ∈ merged s -> is_Some (record_id v))
  /\ NoDup (record_id <$> merged s)
  /\ (forall l d0 r i,
        py_iter (load_existing E w) = Ok l ->
        existing_by_id l = Ok d0 ->
        r ∈ results (produced s) ->
        keys d0 !! i = Some (item_key r) ->
        merged s !! i = Some (item_json r))
  /\ (forall l r i x,
        py_iter (load_existing E w) = Ok l ->
        Forall (fun x => is_Some (key_of x)) l ->
        NoDup (omap key_of l) ->
        r ∈ results (produced s) ->
        l !! i = Some x ->
        record_id x = Some (JStr (item_id r)) ->
        merged s !! i = Some (item_json r)).
Proof.
  intros Hmain.
  destruct (main_inv E w s Hmain) as (l & d0 & Hl & Hd0 & Hst & Hm & _).
  destruct (by_id_from_invariant l [] d0 well_keyed_nil Hd0) as [Hwk0 _].
  destruct (overlay_invariant (results (produced s)) d0 Hwk0) as [Hwk Hpre].
  assert (Hnew : forall l' d' r i,
             py_iter (load_existing E w) = Ok l' ->
             existing_by_id l' = Ok d' ->
             r ∈ results (produced s) ->
             keys d' !! i = Some (item_key r) ->
             merged s !! i = Some (item_json r)).
  { intros l' d' r i Hl' Hd' Hr Hi.
    assert (l' = l) as -> by congruence. assert (d' = d0) as -> by congruence.
    rewrite Hm. rewrite <- (dict_get_at (item_key r)).
    - apply overlay_get_new; [| exact Hr].
      rewrite Hst. apply main_loop_NoDup.
    - apply Hwk.
    - eapply prefix_lookup_Some; [exact Hi | exact Hpre]. }
  split; [| split; [| split]].
  - intros v Hv. rewrite Hm in Hv. eapply well_keyed_records; eauto.
  - rewrite Hm. now apply well_keyed_ids_NoDup.
  - exact Hnew.
  - intros l' r i x Hl' Hall Hnd Hr Hi Hx.
    assert (l' = l) as -> by congruence.
    destruct (by_id_from_clean l []) as (d' & Hd' & _ & Hks); [exact Hnd | exact Hall |].
    apply (Hnew l d' r i Hl Hd' Hr). rewrite Hks. simpl.
    eapply omap_key_of_lookup; [exact Hall | exact Hi |].
    unfold key_of. now rewrite Hx.
Qed.


(** ** Sample runs *)

(** A parsed emblem: a namespaced root with a bounding box and one group. *)
Definition sample_root : element :=
  {| tag := py "{http://www.w3.org/2000/svg}svg";
     attrib := [(py "viewBox", py "0 0 600 400")];
     children := [ {| kind := ElementNode; markup := py "<g/>" |} ] |}.

Definition chad_hit : hit :=
  {| title := py "File:Coat of arms of Chad.svg";
     pageurl := Some (py "https://commons.wikimedia.org/wiki/File:Chad.svg");
     url := py "https://upload.wikimedia.org/chad.svg" |}.

(** An environment in which Chad alone is found, every download (there is
    one [session.get] outcome per entry of [answers], the last one
    repeated) ends as the list says, every file parses to [root], and the
    output file, when there is one, loads as [existing]. *)
Definition sample_env (answers : list http_outcome) (root : option element)
    (existing : option json) : env :=
  {| commons_search_svg := fun _ country =>
       if pystr_eqb country (py "Chad") then Some chad_hit else None;
     session_get := fun history _ =>
       nth (length (List.filter (fun e => match e with EGet _ => true | _ => false end)
                      history))
         answers (List.last answers RequestException);
     etree_parse := fun _ => root;
     json_load := fun _ => existing;
     json_dump := fun _ => [] |}.

Definition svg_bytes : bytes := [Byte.x3c; Byte.x73; Byte.x76; Byte.x67; Byte.x3e].

Definition chad_dest : pystr :=
  os_path_join CACHE_DIR (sanitize_filename (title chad_hit)).

(** A world with an output file and an empty cache, and one in which the
    emblem of Chad is cached. *)
Definition fresh_world : world :=
  {| fs := {[ OUT_JSON := [Byte.x5b; Byte.x5d] ]}; log := [] |}.

Definition cached_world : world :=
  {| fs := {[ OUT_JSON := [Byte.x5b; Byte.x5d]; chad_dest := svg_bytes ]};
     log := [] |}.

Definition old_chad : json :=
  JObj [(py "id", JStr (py "chad_emblem")); (py "name", JStr (py "old"))].

Definition star : json :=
  JObj [(py "id", JStr (py "star")); (py "name", JStr (py "first"))].


Definition new_chad : item :=
  make_item (py "Chad") chad_hit (sanitize_filename (title chad_hit))
    {| viewBox := py "0 0 600 400"; inner := py "<g/>" |}.

Definition ok200 : list http_outcome := [Response 200 svg_bytes].

Example chad_dest_path :
  chad_dest = py "public/emblems/File_Coat_of_arms_of_Chad.svg".
Proof. reflexivity. Qed.

Example sample_merge :
  match main (sample_env ok200 (Some sample_root)
                (Some (JArr [star; old_chad; JNum 7])))
          fresh_world with
  | Ok s => results (produced s) = [new_chad]
            /\ merged s = [star; item_json new_chad]
  | Raise _ => False
  end.
Proof. vm_compute. split; reflexivity. Qed.

Example sample_unhashable :
  main (sample_env ok200 (Some sample_root)
          (Some (JArr [JObj [(py "id", JArr [])]])))
    fresh_world = Raise TypeError.
Proof. vm_compute. reflexivity. Qed.

Lemma merged_ids_unique_witness :
  exists s,
    main (sample_env ok200 (Some sample_root) (Some (JArr [star; old_chad])))
      fresh_world = Ok s
    /\ NoDup (record_id <$> merged s)
    /\ merged s !! 1%nat = Some (item_json new_chad).
Proof.
  destruct (main (sample_env ok200 (Some sample_root)
                    (Some (JArr [star; old_chad]))) fresh_world)
    as [s | e] eqn:H.
  - exists s. split; [reflexivity |].
    destruct (merged_ids_unique _ _ s H) as (_ & Hnd & _ & Hplace).
    split; [exact Hnd |].
    apply (Hplace [star; old_chad] new_chad 1%nat old_chad).
    + reflexivity.
    + repeat constructor; eexists; reflexivity.
    + apply (bool_decide_unpack _). vm_compute. reflexivity.
    + vm_compute in H. injection H as <-. apply list_elem_of_here.
    + reflexivity.
    + reflexivity.
  - vm_compute in H. discriminate H.
Defined.



(** [record_id] gives nothing exactly for the entries that are not
    objects and for the objects without an ["id"] key. *)
Lemma record_id_None x :
  record_id x = None
  <-> (forall o, x <> JObj o) \/ (exists o, x = JObj o /\ obj_get (py "id") o = None).
Proof.
  split.
  - destruct x; simpl; intros H; try (left; intros o' Ho; discriminate Ho).
    right. now exists o.
  - intros [H | (o & -> & H)]; [| exact H].
    destruct x; try reflexivity. now destruct (H o).
Qed.

(** C9: an entry of the existing list that is not an object, or has no
    ["id"] key, leaves the identifier mapping as it is without the entry
    (and raises nothing), and is not in the list the run writes. *)
Theorem entries_without_id_dropped x :
  ((forall o, x <> JObj o)
   \/ (exists o, x = JObj o /\ obj_get (py "id") o = None)) ->
  (forall l1 l2, existing_by_id (l1 ++ x :: l2) = existing_by_id (l1 ++ l2))
  /\ (forall E w s, main E w = Ok s -> x ∉ merged s).
Proof.
  intros Hx%record_id_None. split.
  - intros l1 l2. now apply by_id_from_drop.
  - intros E w s Hmain Hin.
    destruct (main_merged_well_keyed E w s Hmain) as (d & Hwk & Hm).
    rewrite Hm in Hin.
    destruct (well_keyed_records d x Hwk Hin) as [i Hi]. congruence.
Qed.

Lemma entries_without_id_dropped_witness :
  existing_by_id ([star] ++ JNum 7 :: [old_chad])
  = existing_by_id ([star] ++ [old_chad])
  /\ forall s,
       main (sample_env ok200 (Some sample_root)
               (Some (JArr [star; JNum 7; old_chad])))
         fresh_world = Ok s ->
       JNum 7 ∉ merged s.
Proof.
  assert (Hx : (forall o, JNum 7 <> JObj o)
               \/ (exists o, JNum 7 = JObj o /\ obj_get (py "id") o = None)).
  { left. intros o Ho. discriminate Ho. }
  destruct (entries_without_id_dropped (JNum 7) Hx) as [Hdrop Hout].
  split.
  - apply Hdrop.
  - intros s Hs. eapply Hout. exact Hs.
Defined.

Example sample_without_id :
  match main (sample_env ok200 (Some sample_root)
                (Some (JArr [JNum 7; JStr (py "star");
                             JObj [(py "name", JStr (py "anonymous"))];
                             star])))
          fresh_world with
  | Ok s => merged s = [star; item_json new_chad]
  | Raise _ => False
  end.
Proof. vm_compute. reflexivity. Qed.

(** ** A malformed output file *)

(** C8: when the output file is there and [json.load] raises on it, the
    existing collection is the empty list and the mapping built from it
    is empty, no exception raised; and a run that ends writes exactly the
    records it produced, in the order it produced them. *)
Theorem malformed_existing_is_empty E w content :
  fs w !! OUT_JSON = Some content ->
  json_load E content = None ->
  load_existing E w = JArr []
  /\ (l <- py_iter (load_existing E w) ;; existing_by_id l) = Ok []
  /\ forall s,
      main E w = Ok s ->
      merged s = item_json <$> results (produced s)
      /\ fs (final s) !! OUT_JSON = Some (json_dump E (JArr (merged s))).
Proof.
  intros Hfile Hload.
  assert (Hex : load_existing E w = JArr []).
  { unfold load_existing. now rewrite Hfile, Hload. }
  split; [exact Hex |]. split; [now rewrite Hex |].
  intros s Hs.
  destruct (main_inv E w s Hs) as (l & d0 & Hl & Hd0 & Hst & Hm & Hfin).
  rewrite Hex in Hl. injection Hl as <-. injection Hd0 as <-. split.
  - rewrite Hm, overlay_fresh; [reflexivity |]. simpl.
    apply item_keys_NoDup. rewrite Hst. apply main_loop_NoDup.
  - rewrite Hfin. unfold write_file. cbn [fs]. apply lookup_insert_eq.
Qed.

Lemma malformed_existing_is_empty_witness :
  exists s,
    main (sample_env ok200 (Some sample_root) None) fresh_world = Ok s
    /\ merged s = item_json <$> results (produced s).
Proof.
  destruct (main (sample_env ok200 (Some sample_root) None) fresh_world)
    as [s | e] eqn:Hs; [| vm_compute in Hs; discriminate Hs].
  exists s. split; [reflexivity |].
  destruct (malformed_existing_is_empty
              (sample_env ok200 (Some sample_root) None) fresh_world
              [Byte.x5b; Byte.x5d])
    as (_ & _ & Hrun).
  - reflexivity.
  - reflexivity.
  - apply (Hrun s Hs).
Defined.

Example sample_malformed :
  match main (sample_env ok200 (Some sample_root) None) fresh_world with
  | Ok s => merged s = [item_json new_chad]
  | Raise _ => False
  end.
Proof. vm_compute. reflexivity. Qed.

(** ** Identifiers *)

(** What [sym_id] does to one character of the name. *)
Definition id_chars (c : N) : pystr :=
  if c =? apostrophe then []
  else if (c =? space) || (c =? hyphen) then [underscore]
  else [lower_char c].

Lemma replace_app old new s1 s2 :
  replace old new (s1 ++ s2) = replace old new s1 ++ replace old new s2.
Proof. unfold replace. apply flat_map_app. Qed.

(** Lower-casing neither makes nor removes a space, an apostrophe or a
    hyphen. *)
Lemma lower_char_punct c p :
  p = 32 \/ p = 39 \/ p = 45 -> lower_char c = p <-> c = p.
Proof.
  intros Hp. unfold lower_char, is_upper, in_range.
  destruct (N.leb_spec 65 c), (N.leb_spec c 90), (N.leb_spec 192 c),
    (N.leb_spec c 222), (N.eqb_spec c 215); simpl; lia.
Qed.

Lemma id_chars_single c :
  replace hyphen (py "_")
    (replace apostrophe (py "") (replace space (py "_") [lower_char c]))
  = id_chars c.
Proof.
  unfold id_chars, apostrophe, space, hyphen, underscore.
  destruct (N.eqb_spec c 39) as [-> | H39]; [reflexivity |].
  destruct (N.eqb_spec c 32) as [-> | H32]; [reflexivity |].
  destruct (N.eqb_spec c 45) as [-> | H45]; [reflexivity |].
  assert (L32 : lower_char c <> 32) by (rewrite lower_char_punct; auto).
  assert (L39 : lower_char c <> 39) by (rewrite lower_char_punct; auto).
  assert (L45 : lower_char c <> 45) by (rewrite lower_char_punct; auto).
  apply N.eqb_neq in L32, L39, L45.
  unfold replace. cbn [flat_map app]. rewrite L32. cbn [flat_map app].
  rewrite L39. cbn [flat_map app]. rewrite L45. reflexivity.
Qed.

Lemma safe_country_cons c country :
  safe_country (c :: country) = id_chars c ++ safe_country country.
Proof.
  rewrite <- id_chars_single. unfold safe_country, lower. simpl map.
  change (lower_char c :: map lower_char country)
    with ([lower_char c] ++ map lower_char country).
  now rewrite !replace_app.
Qed.

Lemma safe_country_chars country :
  safe_country country = flat_map id_chars country.
Proof.
  induction country as [| c country IH]; [reflexivity |].
  now rewrite safe_country_cons, IH.
Qed.

Lemma NoDup_fmap_inj_on {A B} (f : A -> B) (l : list A) x y :
  NoDup (f <$> l) -> x ∈ l -> y ∈ l -> f x = f y -> x = y.
Proof.
  induction l as [| a l IH]; intros Hnd Hx Hy Hf.
  - now apply elem_of_nil in Hx.
  - rewrite fmap_cons in Hnd. apply NoDup_cons in Hnd as [Ha Hnd].
    apply elem_of_cons in Hx as [-> | Hx];
      apply elem_of_cons in Hy as [-> | Hy]; auto.
    + destruct Ha. rewrite Hf. now apply list_elem_of_fmap_2.
    + destruct Ha. rewrite <- Hf. now apply list_elem_of_fmap_2.
Qed.

(** C5: the identifier of a record is a function of the country name
    alone: the name in lower case, each space and hyphen turned into an
    underscore, apostrophes dropped, ["_emblem"] put after; no two
    countries of the static list get the same identifier, and the
    identifiers of the records of one run are those of a sub-list of the
    countries, hence pairwise different. *)
Theorem sym_id_injective_on_countries :
  (forall country, sym_id country = flat_map id_chars country ++ py "_emblem")
  /\ (forall c1 c2, c1 ∈ UN_COUNTRIES -> c2 ∈ UN_COUNTRIES ->
                    sym_id c1 = sym_id c2 -> c1 = c2)
  /\ (forall E w s, main E w = Ok s ->
        (exists cs, cs `sublist_of` UN_COUNTRIES
                    /\ item_id <$> results (produced s) = sym_id <$> cs)
        /\ NoDup (item_id <$> results (produced s))).
Proof.
  split; [| split].
  - intros country. unfold sym_id. now rewrite safe_country_chars.
  - intros c1 c2. apply NoDup_fmap_inj_on, sym_id_UN_COUNTRIES_NoDup.
  - intros E w s Hmain.
    destruct (main_inv E w s Hmain) as (_ & _ & _ & _ & Hst & _).
    rewrite Hst. split; [| apply main_loop_NoDup].
    destruct (main_loop_ids E UN_COUNTRIES init w) as (cs & Hsub & Hids).
    exists cs. split; [exact Hsub | exact Hids].
Qed.

Lemma sym_id_injective_on_countries_witness :
  sym_id (py "Guinea-Bissau") = py "guinea_bissau_emblem"
  /\ sym_id (py "C" ++ [244] ++ py "te d'Ivoire")
     = py "c" ++ [244] ++ py "te_divoire_emblem"
  /\ (sym_id (py "Guinea") = sym_id (py "Guinea-Bissau") ->
      py "Guinea" = py "Guinea-Bissau")
  /\ exists s,
       main (sample_env ok200 (Some sample_root) None) fresh_world = Ok s
       /\ NoDup (item_id <$> results (produced s)).
Proof.
  destruct sym_id_injective_on_countries as (Hchars & Hinj & Hrun).
  split; [rewrite Hchars; reflexivity |].
  split; [rewrite Hchars; reflexivity |].
  split.
  - apply Hinj; apply (bool_decide_unpack _); vm_compute; reflexivity.
  - destruct (main (sample_env ok200 (Some sample_root) None) fresh_world)
      as [s | e] eqn:H.
    + exists s. split; [reflexivity |]. apply (Hrun _ _ s H).
    + vm_compute in H. discriminate H.
Defined.

(** ** Extraction *)

Lemma truthy_spec s : truthy s = true <-> s <> [].
Proof. destruct s; simpl; split; congruence. Qed.

Lemma present_spec o : present o = true <-> exists s, o = Some s /\ s <> [].
Proof.
  destruct o as [s |]; simpl.
  - rewrite truthy_spec. split; [eauto | now intros (s' & [= <-] & H)].
  - split; [discriminate | now intros (s' & [=] & _)].
Qed.

Lemma strip_units_id s : Forall (fun c => dimension_char c = true) s -> strip_units s = s.
Proof.
  unfold strip_units. induction 1 as [| c s Hc _ IH]; simpl; [reflexivity |].
  now rewrite Hc, IH.
Qed.

(** What [extract_inner_svg] returns once the file is read and parsed. *)
Lemma extract_inner_svg_parsed E w path content root :
  fs w !! path = Some content ->
  etree_parse E content = Some root ->
  extract_inner_svg E path w = extract_root root.
Proof. intros Hf Hp. unfold extract_inner_svg. now rewrite Hf, Hp. Qed.

(** C3, as amended: for a parsed file whose root is an [svg] element and
    whose serialized children strip to a non-empty text, a non-empty
    [viewBox] is returned unchanged, and without one, non-empty [width]
    and [height] give ["0 0 W H"], W and H being the two values with every
    character other than digits, dots and hyphens removed (the values
    themselves when they hold no other character); whatever the file,
    without a non-empty [viewBox] and without both a non-empty [width] and
    a non-empty [height] extraction returns none. *)
Theorem extract_bounding_box E w path content root :
  fs w !! path = Some content ->
  etree_parse E content = Some root ->
  (present (attr_get (py "viewBox") (attrib root)) = false ->
   present (attr_get (py "width") (attrib root))
   && present (attr_get (py "height") (attrib root)) = false ->
   extract_inner_svg E path w = None)
  /\ (local (tag root) = py "svg" ->
      strip (concat (child_markup root)) <> [] ->
      (forall vb,
          attr_get (py "viewBox") (attrib root) = Some vb -> vb <> [] ->
          extract_inner_svg E path w
          = Some {| viewBox := vb;
                    inner := strip (concat (child_markup root)) |})
      /\ (forall wd ht,
             present (attr_get (py "viewBox") (attrib root)) = false ->
             attr_get (py "width") (attrib root) = Some wd -> wd <> [] ->
             attr_get (py "height") (attrib root) = Some ht -> ht <> [] ->
             extract_inner_svg E path w
             = Some {| viewBox := py "0 0 " ++ strip_units wd ++ py " "
                                    ++ strip_units ht;
                       inner := strip (concat (child_markup root)) |}
             /\ (Forall (fun c => dimension_char c = true) wd ->
                 Forall (fun c => dimension_char c = true) ht ->
                 extract_inner_svg E path w
                 = Some {| viewBox := py "0 0 " ++ wd ++ py " " ++ ht;
                           inner := strip (concat (child_markup root)) |}))).
Proof.
  intros Hf Hp. rewrite (extract_inner_svg_parsed E w path content root Hf Hp).
  unfold extract_root, bounding_box. split.
  - intros Hvb Hwh. rewrite Hvb, Hwh. simpl.
    now destruct (negb _).
  - intros Htag Hinner. rewrite Htag.
    apply truthy_spec in Hinner.
    assert (Hsvg : pystr_eqb (py "svg") (py "svg") = true) by reflexivity.
    rewrite Hsvg. cbn [negb]. split.
    + intros vb Hvb Hne. rewrite Hvb. cbn [present].
      apply truthy_spec in Hne. rewrite Hne. cbn [negb]. now rewrite Hinner.
    + intros wd ht Hvb Hwd Hwne Hht Hhne. rewrite Hvb, Hwd, Hht.
      cbn [present negb default].
      apply truthy_spec in Hwne, Hhne. rewrite Hwne, Hhne. cbn [andb].
      rewrite Hinner. cbn [negb]. split; [reflexivity |].
      intros Hw Hh. unfold id.
      now rewrite (strip_units_id wd Hw), (strip_units_id ht Hh).
Qed.

(** A file with dimensions in pixels, and one with a bounding box and no
    child. *)
Definition sized_root : element :=
  {| tag := py "svg";
     attrib := [(py "width", py "100px"); (py "height", py "50px")];
     children := [ {| kind := ElementNode; markup := py "<g/>" |} ] |}.

Definition childless_root : element :=
  {| tag := py "svg";
     attrib := [(py "viewBox", py "0 0 10 10")];
     children := [] |}.

(** C3 as stated fails twice: the units of [width] and [height] do not
    reach the bounding box, and a file with a [viewBox] but no child gives
    none. *)
Lemma extract_bounding_box_counterexample :
  extract_inner_svg (sample_env ok200 (Some sized_root) None) chad_dest
    cached_world
  = Some {| viewBox := py "0 0 100 50"; inner := py "<g/>" |}
  /\ py "0 0 100 50" <> py "0 0 100px 50px"
  /\ attr_get (py "viewBox") (attrib childless_root) = Some (py "0 0 10 10")
  /\ extract_inner_svg (sample_env ok200 (Some childless_root) None) chad_dest
       cached_world
     = None.
Proof.
  split; [vm_compute; reflexivity |]. split; [discriminate |].
  split; [reflexivity | vm_compute; reflexivity].
Qed.

Lemma extract_bounding_box_witness :
  extract_inner_svg (sample_env ok200 (Some sample_root) None) chad_dest
    cached_world
  = Some {| viewBox := py "0 0 600 400"; inner := py "<g/>" |}
  /\ extract_inner_svg (sample_env ok200 (Some sized_root) None) chad_dest
       cached_world
     = Some {| viewBox := py "0 0 100 50"; inner := py "<g/>" |}.
Proof.
  split.
  - destruct (extract_bounding_box (sample_env ok200 (Some sample_root) None)
                cached_world chad_dest svg_bytes sample_root)
      as (_ & Hsvg); [reflexivity | reflexivity |].
    destruct Hsvg as (Hvb & _); [reflexivity | discriminate |].
    apply (Hvb (py "0 0 600 400")); [reflexivity | discriminate].
  - destruct (extract_bounding_box (sample_env ok200 (Some sized_root) None)
                cached_world chad_dest svg_bytes sized_root)
      as (_ & Hsvg); [reflexivity | reflexivity |].
    destruct Hsvg as (_ & Hwh); [reflexivity | discriminate |].
    apply (Hwh (py "100px") (py "50px"));
      first [reflexivity | discriminate].
Defined.

(** C7, as amended: a parsed file whose root has no child node at all
    (no element, no comment, no processing instruction), or whose
    serialized child nodes strip to the empty text, gives none. *)
Theorem extract_without_children E w path content root :
  fs w !! path = Some content ->
  etree_parse E content = Some root ->
  children root = [] \/ strip (concat (child_markup root)) = [] ->
  extract_inner_svg E path w = None.
Proof.
  intros Hf Hp Hempty.
  rewrite (extract_inner_svg_parsed E w path content root Hf Hp).
  assert (Hinner : strip (concat (child_markup root)) = []).
  { destruct Hempty as [H | H]; [| exact H].
    unfold child_markup. rewrite H. reflexivity. }
  unfold extract_root. rewrite Hinner.
  destruct (negb _); [reflexivity |]. now destruct (bounding_box root).
Qed.

(** A root with a bounding box whose only child is a comment. *)
Definition comment_root : element :=
  {| tag := py "svg";
     attrib := [(py "viewBox", py "0 0 10 10")];
     children := [ {| kind := CommentNode;
                      markup := py "<!-- drawn later -->" |} ] |}.

(** C7 as stated fails: a root whose only child is a comment has no child
    element, and extraction returns the comment as its markup. *)
Lemma extract_comment_only :
  Forall (fun n => kind n <> ElementNode) (children comment_root)
  /\ extract_inner_svg (sample_env ok200 (Some comment_root) None) chad_dest
       cached_world
     = Some {| viewBox := py "0 0 10 10";
               inner := py "<!-- drawn later -->" |}.
Proof.
  split; [repeat constructor; discriminate | vm_compute; reflexivity].
Qed.

Lemma extract_without_children_witness :
  extract_inner_svg (sample_env ok200 (Some childless_root) None) chad_dest
    cached_world = None.
Proof.
  apply (extract_without_children _ _ _ svg_bytes childless_root);
    [reflexivity | reflexivity | left; reflexivity].
Defined.

(** ** Downloads *)

(** An outcome after which [download_svg] goes on to the next attempt. *)
Definition retryable (o : http_outcome) : bool :=
  match o with
  | Response sc _ => retry_status sc
  | RequestException => true
  end.

(** The events of [k] attempts in a row, numbered from [a], that were all
    retried: each is a GET followed by a sleep of as many seconds as the
    number of the attempt. *)
Definition retried (u : pystr) (a k : nat) : list event :=
  flat_map (fun j => [EGet u; ESleep j]) (seq a k).

(** The number of GETs in a log. *)
Definition gets (l : list event) : nat :=
  length (List.filter (fun e => match e with EGet _ => true | _ => false end) l).

Lemma retry_status_spec sc :
  retry_status sc = true
  <-> (sc = 429 \/ sc = 500 \/ sc = 502 \/ sc = 503 \/ sc = 504)%Z.
Proof.
  unfold retry_status. simpl. rewrite !orb_true_iff, !Z.eqb_eq. intuition discriminate.
Qed.

Lemma retried_S u a k :
  retried u a (S k) = [EGet u; ESleep a] ++ retried u (S a) k.
Proof. reflexivity. Qed.

Lemma gets_app l1 l2 : gets (l1 ++ l2) = (gets l1 + gets l2)%nat.
Proof. unfold gets. now rewrite List.filter_app, List.length_app. Qed.

Lemma gets_retried u a k : gets (retried u a k) = k.
Proof.
  revert a. induction k as [| k IH]; intros a; [reflexivity |].
  rewrite retried_S, gets_app, IH. reflexivity.
Qed.

Section Download.
Variables (E : env) (u dest : pystr).

(** The answer to the attempt that follows [j] retried ones. *)
Definition answer (w : world) (a j : nat) : http_outcome :=
  session_get E (log w ++ retried u a j) u.

Definition after_retries (w : world) (a k : nat) : world :=
  {| fs := fs w; log := log w ++ retried u a k |}.

Lemma after_retries_S w a k :
  after_retries (emit (ESleep a) (emit (EGet u) w)) (S a) k
  = after_retries w a (S k).
Proof.
  unfold after_retries, emit. cbn [fs log]. f_equal.
  rewrite retried_S, <- !app_assoc. reflexivity.
Qed.

Lemma answer_S w a j :
  answer (emit (ESleep a) (emit (EGet u) w)) (S a) j = answer w a (S j).
Proof.
  unfold answer, emit. cbn [log].
  rewrite retried_S, <- !app_assoc. reflexivity.
Qed.

Lemma answer_0 w a : answer w a 0 = session_get E (log w) u.
Proof. unfold answer. simpl. now rewrite app_nil_r. Qed.

Lemma after_retries_0 w a : after_retries w a 0 = w.
Proof. unfold after_retries. simpl. rewrite app_nil_r. now destruct w. Qed.

(** How a run of attempts ends: on the first answer that is not retried,
    or by running out of attempts. *)
Definition ends_with (w : world) (a len : nat) (r : bool * world) : Prop :=
  (exists k content,
      (k < len)%nat
      /\ (forall j, (j < k)%nat -> retryable (answer w a j) = true)
      /\ answer w a k = Response 200 content
      /\ r = (true, write_file dest content
                      (emit (EGet u) (after_retries w a k))))
  \/ (exists k sc content,
         (k < len)%nat
         /\ (forall j, (j < k)%nat -> retryable (answer w a j) = true)
         /\ answer w a k = Response sc content
         /\ sc <> 200%Z /\ retry_status sc = false
         /\ r = (false, emit (EGet u) (after_retries w a k)))
  \/ ((forall j, (j < len)%nat -> retryable (answer w a j) = true)
      /\ r = (false, after_retries w a len)).

Lemma ends_with_retry w a len r :
  retryable (session_get E (log w) u) = true ->
  ends_with (emit (ESleep a) (emit (EGet u) w)) (S a) len r ->
  ends_with w a (S len) r.
Proof.
  intros Hfirst Hrest.
  assert (Hshift : forall k,
             (forall j, (j < k)%nat ->
                retryable (answer (emit (ESleep a) (emit (EGet u) w)) (S a) j)
                = true) ->
             forall j, (j < S k)%nat -> retryable (answer w a j) = true).
  { intros k Hk [| j] Hj; [now rewrite answer_0 |].
    rewrite <- answer_S. apply Hk. lia. }
  destruct Hrest as [(k & c & Hlt & Hall & Hk & ->)
                    | [(k & sc & c & Hlt & Hall & Hk & Hsc & Hrs & ->)
                      | (Hall & ->)]].
  - left. exists (S k), c. rewrite <- answer_S, <- after_retries_S.
    repeat split; first [lia | exact Hk | now apply Hshift | reflexivity].
  - right; left. exists (S k), sc, c.
    rewrite <- answer_S, <- after_retries_S.
    repeat split;
      first [lia | exact Hk | exact Hsc | exact Hrs | now apply Hshift
            | reflexivity].
  - right; right. rewrite <- after_retries_S. split; [now apply Hshift | reflexivity].
Qed.

Lemma download_attempts_ends len : forall a w,
  ends_with w a len (download_attempts E u dest (seq a len) w).
Proof.
  induction len as [| len IH]; intros a w.
  - right; right. split; [intros j Hj; lia |].
    simpl. now rewrite after_retries_0.
  - cbn [seq download_attempts].
    destruct (session_get E (log w) u) as [sc content |] eqn:Hget.
    + destruct (Z.eqb_spec sc 200) as [-> | Hsc].
      * left. exists 0%nat, content.
        rewrite answer_0, after_retries_0.
        repeat split;
          first [lia | exact Hget | intros j Hj; lia | reflexivity].
      * destruct (retry_status sc) eqn:Hrs.
        -- apply ends_with_retry; [now rewrite Hget | apply IH].
        -- right; left. exists 0%nat, sc, content.
           rewrite answer_0, after_retries_0.
           assert (Hsame : (if (sc =? 403)%Z
                            then (false, emit (EGet u) w)
                            else (false, emit (EGet u) w))
                           = (false, emit (EGet u) w))
             by now destruct (sc =? 403)%Z.
           rewrite Hsame.
           repeat split;
             first [lia | exact Hget | exact Hsc | exact Hrs
                   | intros j Hj; lia | reflexivity].
    + apply ends_with_retry; [now rewrite Hget | apply IH].
Qed.

End Download.

Example retried_four u :
  retried u 1 4
  = [EGet u; ESleep 1; EGet u; ESleep 2; EGet u; ESleep 3; EGet u; ESleep 4].
Proof. reflexivity. Qed.

(** C4: [download_svg] goes through at most four GETs.  It stops at the
    first answer that is not retried: a 200, whose body it writes to the
    destination, returning true; or a status outside 429, 500, 502, 503
    and 504 (403 among them), on which it returns false at once, the files
    untouched.  An answer with one of these five statuses, and a request
    exception, are followed by a sleep of as many seconds as the number of
    the attempt and by the next attempt; after four of them it returns
    false. *)
Theorem download_svg_attempts E u dest w :
  let r := download_svg E u dest w in
  ((exists k content,
       (k < 4)%nat
       /\ (forall j, (j < k)%nat -> retryable (answer E u w 1 j) = true)
       /\ answer E u w 1 k = Response 200 content
       /\ r = (true, {| fs := <[dest := content]> (fs w);
                        log := (log w ++ retried u 1 k) ++ [EGet u] |}))
   \/ (exists k sc content,
          (k < 4)%nat
          /\ (forall j, (j < k)%nat -> retryable (answer E u w 1 j) = true)
          /\ answer E u w 1 k = Response sc content
          /\ sc <> 200%Z /\ retry_status sc = false
          /\ r = (false, {| fs := fs w;
                            log := (log w ++ retried u 1 k) ++ [EGet u] |}))
   \/ ((forall j, (j < 4)%nat -> retryable (answer E u w 1 j) = true)
       /\ r = (false, {| fs := fs w; log := log w ++ retried u 1 4 |})))
  /\ (gets (log w) < gets (log r.2) <= gets (log w) + 4)%nat
  /\ (forall sc, retry_status sc = true
                 <-> (sc = 429 \/ sc = 500 \/ sc = 502 \/ sc = 503 \/ sc = 504)%Z)
  /\ retry_status 403 = false.
Proof.
  intros r. pose proof (download_attempts_ends E u dest 4 1 w) as Hend.
  fold (download_svg E u dest w) in Hend. fold r in Hend.
  split; [exact Hend |]. split; [| split; [apply retry_status_spec | reflexivity]].
  destruct Hend as [(k & c & Hlt & _ & _ & ->)
                   | [(k & sc & c & Hlt & _ & _ & _ & _ & ->)
                     | (_ & ->)]];
    cbn [snd log fs write_file emit after_retries];
    rewrite !gets_app, gets_retried; cbn; lia.
Qed.

Example download_after_two_retries :
  download_svg
    (sample_env [Response 503 []; RequestException; Response 200 svg_bytes]
       None None)
    (url chad_hit) chad_dest fresh_world
  = (true,
     {| fs := <[chad_dest := svg_bytes]> (fs fresh_world);
        log := [EGet (url chad_hit); ESleep 1; EGet (url chad_hit); ESleep 2;
                EGet (url chad_hit)] |}).
Proof. reflexivity. Qed.

Example download_forbidden :
  download_svg (sample_env [Response 429 []; Response 403 []] None None)
    (url chad_hit) chad_dest fresh_world
  = (false,
     {| fs := fs fresh_world;
        log := [EGet (url chad_hit); ESleep 1; EGet (url chad_hit)] |}).
Proof. reflexivity. Qed.

Example download_exhausted :
  download_svg (sample_env [Response 503 []] None None)
    (url chad_hit) chad_dest fresh_world
  = (false,
     {| fs := fs fresh_world; log := retried (url chad_hit) 1 4 |}).
Proof. reflexivity. Qed.

(** ** The cache *)

Lemma cached_spec dest w :
  cached dest w = true <-> exists content, fs w !! dest = Some content /\ content <> [].
Proof.
  unfold cached. destruct (fs w !! dest) as [c |].
  - destruct c; simpl; split.
    + discriminate.
    + intros (c' & [= <-] & H). now destruct H.
    + intros _. eexists. split; [reflexivity | discriminate].
    + reflexivity.
  - split; [discriminate | now intros (c' & [=] & _)].
Qed.

(** C6: for an entity whose destination is already a non-empty file, the
    turn of the loop does the look-up and nothing else to the world: no
    GET, no sleep, no file written; it goes straight to the extraction
    from the cached file, which alone decides between a new record and a
    failure. *)
Theorem cached_entity_not_downloaded E country st w h content :
  commons_search_svg E (log w) country = Some h ->
  fs w !! os_path_join CACHE_DIR (sanitize_filename (title h)) = Some content ->
  content <> [] ->
  fetch E (url h) (os_path_join CACHE_DIR (sanitize_filename (title h)))
    (emit (ELookup country) w)
  = (true, emit (ELookup country) w)
  /\ (process E country st w).2
     = {| fs := fs w; log := log w ++ [ELookup country] |}
  /\ gets (log (process E country st w).2) = gets (log w)
  /\ (process E country st w).1
     = match etree_parse E content with
       | Some root =>
           match extract_root root with
           | Some p =>
               append (make_item country h (sanitize_filename (title h)) p) st
           | None => fail st
           end
       | None => fail st
       end.
Proof.
  intros Hhit Hfile Hne.
  set (dest := os_path_join CACHE_DIR (sanitize_filename (title h))) in *.
  assert (Hc : cached dest (emit (ELookup country) w) = true).
  { apply cached_spec. exists content. split; [exact Hfile | exact Hne]. }
  assert (Hfetch : fetch E (url h) dest (emit (ELookup country) w)
                   = (true, emit (ELookup country) w)).
  { unfold fetch. now rewrite Hc. }
  split; [exact Hfetch |].
  unfold process. rewrite Hhit. fold dest. rewrite Hfetch.
  unfold extract_inner_svg. cbn [emit fs]. rewrite Hfile.
  assert (Hgets : gets (log w ++ [ELookup country]) = gets (log w))
    by (rewrite gets_app; cbn; lia).
  destruct (etree_parse E content) as [root |];
    [destruct (extract_root root) as [p |] |];
    cbn [fst snd log emit]; repeat split; exact Hgets.
Qed.

Lemma cached_entity_not_downloaded_witness :
  (process (sample_env [] (Some sample_root) None) (py "Chad") init
     cached_world).2
  = {| fs := fs cached_world; log := [ELookup (py "Chad")] |}
  /\ (process (sample_env [] (Some sample_root) None) (py "Chad") init
        cached_world).1
     = append new_chad init.
Proof.
  destruct (cached_entity_not_downloaded
              (sample_env [] (Some sample_root) None) (py "Chad") init
              cached_world chad_hit svg_bytes)
    as (_ & Hw & _ & Hst).
  - reflexivity.
  - reflexivity.
  - discriminate.
  - split; [exact Hw | exact Hst].
Defined.

(** A download that brought a non-empty body leaves the destination
    cached. *)
Lemma download_svg_caches E u dest w w' :
  download_svg E u dest w = (true, w') ->
  (exists content, fs w' !! dest = Some content)
  /\ (forall content, fs w' !! dest = Some content -> content <> [] ->
                      cached dest w' = true).
Proof.
  intros Hd. split.
  - destruct (download_attempts_ends E u dest 4 1 w)
      as [(k & c & _ & _ & _ & Hr) | [(k & sc & c & _ & _ & _ & _ & _ & Hr) | (_ & Hr)]];
      fold (download_svg E u dest w) in Hr; rewrite Hd in Hr;
      [| discriminate Hr | discriminate Hr].
    injection Hr as ->. exists c. cbn [write_file fs]. apply lookup_insert_eq.
  - intros content Hf Hne. apply cached_spec. eauto.
Qed.

Lemma download_svg_attempts_witness :
  (gets (log (download_svg (sample_env [Response 503 []] None None)
                (url chad_hit) chad_dest fresh_world).2) <= 4)%nat
  /\ retry_status 503 = true.
Proof.
  destruct (download_svg_attempts (sample_env [Response 503 []] None None)
              (url chad_hit) chad_dest fresh_world)
    as (_ & Hgets & Hretry & _).
  split.
  - cbn [gets log fresh_world List.filter length] in Hgets. lia.
  - apply Hretry. right; right; right; left. reflexivity.
Defined.

Lemma sanitize_filename_spec_witness :
  sanitize_filename (py "File:Coat of arms.svg") !! 0%nat = Some 70
  /\ sanitize_filename (py "File:Coat of arms.svg") !! 4%nat = Some 95.
Proof.
  destruct (sanitize_filename_spec (py "File:Coat of arms.svg"))
    as (_ & _ & Hat).
  split.
  - apply (Hat 0%nat 70); [reflexivity |]. unfold safe_char. lia.
  - apply (Hat 4%nat 58); [reflexivity |]. unfold safe_char. lia.
Defined.

(** * Further properties of the script *)

(** ** The counters of the loop *)

Lemma process_counts E country st w :
  let st' := (process E country st w).1 in
  (ok st' + failed st' = S (ok st + failed st))%nat
  /\ skipped st' = skipped st
  /\ (ok st = length (results st) -> ok st' = length (results st')).
Proof.
  unfold process.
  destruct (commons_search_svg E (log w) country) as [h |];
    [| cbn; repeat split; auto; lia].
  destruct (fetch _ _ _ _) as [[] w1]; [| cbn; repeat split; auto; lia].
  destruct (extract_inner_svg _ _ _) as [p |]; cbn; repeat split; auto; try lia.
  intros ->. rewrite length_app. cbn. lia.
Qed.

Lemma main_loop_counts_from E countries : forall st w,
  let st' := (main_loop E countries st w).1 in
  (ok st' + failed st' = ok st + failed st + length countries)%nat
  /\ skipped st' = skipped st
  /\ (ok st = length (results st) -> ok st' = length (results st')).
Proof.
  induction countries as [| c countries IH]; intros st w; cbn.
  - repeat split; auto; lia.
  - destruct (process E c st w) as [st1 w1] eqn:Hp.
    pose proof (process_counts E c st w) as (H1 & H2 & H3).
    rewrite Hp in H1, H2, H3. cbn in H1, H2, H3.
    destruct (IH st1 w1) as (I1 & I2 & I3).
    repeat split; [lia | congruence | auto].
Qed.

(** X1: every country is counted once, as added or as failed; [ok] is the
    number of records produced; [skipped] is never touched. *)
Theorem main_loop_counts E w :
  let st := (main_loop E UN_COUNTRIES init w).1 in
  (ok st + failed st = 193)%nat
  /\ ok st = length (results st)
  /\ skipped st = 0%nat.
Proof.
  destruct (main_loop_counts_from E UN_COUNTRIES init w) as (H1 & H2 & H3).
  repeat split; [exact H1 | now apply H3 | exact H2].
Qed.

(** ** What a run does to the files *)

(** The destination of a hit. *)
Definition dest_of (h : hit) : pystr :=
  os_path_join CACHE_DIR (sanitize_filename (title h)).

(** The paths of the cache: the directory, a slash, a safe file name. *)
Definition cache_path (p : pystr) : Prop :=
  exists name, p = CACHE_DIR ++ [slash] ++ name /\ Forall safe_char name.

Lemma sanitize_filename_safe name : Forall safe_char (sanitize_filename name).
Proof.
  unfold sanitize_filename. induction name as [| c name IH]; simpl; constructor; auto.
  destruct (filename_char c) eqn:Hc; [now apply filename_char_spec |].
  unfold safe_char, underscore. lia.
Qed.

Lemma dest_of_cache_path h :
  dest_of h = CACHE_DIR ++ [slash] ++ sanitize_filename (title h)
  /\ cache_path (dest_of h).
Proof.
  assert (Hd : dest_of h = CACHE_DIR ++ [slash] ++ sanitize_filename (title h)).
  { unfold dest_of, os_path_join.
    assert (Hs : starts_with_slash (sanitize_filename (title h)) = false).
    { pose proof (sanitize_filename_safe (title h)) as Hsafe.
      destruct (sanitize_filename (title h)) as [| c s]; [reflexivity |].
      apply Forall_cons in Hsafe as [Hc _]. simpl. apply N.eqb_neq.
      unfold safe_char, slash in *. lia. }
    rewrite Hs. reflexivity. }
  split; [exact Hd |]. exists (sanitize_filename (title h)).
  split; [exact Hd | apply sanitize_filename_safe].
Qed.

Lemma download_svg_fs E u dest w :
  let r := download_svg E u dest w in
  (r.1 = false -> fs r.2 = fs w)
  /\ (r.1 = true -> exists content, fs r.2 = <[dest := content]> (fs w))
  /\ (forall p, p <> dest -> fs r.2 !! p = fs w !! p).
Proof.
  intros r.
  destruct (download_attempts_ends E u dest 4 1 w)
    as [(k & c & _ & _ & _ & Hr)
       | [(k & sc & c & _ & _ & _ & _ & _ & Hr) | (_ & Hr)]];
    fold (download_svg E u dest w) in Hr; fold r in Hr; rewrite Hr;
    cbn [fst snd fs write_file emit after_retries];
    repeat split; try discriminate; try reflexivity; eauto.
  intros p Hp. now apply lookup_insert_ne.
Qed.

Lemma cached_fs dest w w' :
  fs w' !! dest = fs w !! dest -> cached dest w' = cached dest w.
Proof. unfold cached. now intros ->. Qed.

(** One turn of the loop leaves every path as it was, but for the
    destination of the hit when it was not cached and a download put a
    file there. *)
Lemma process_fs E country st w p :
  fs (process E country st w).2 !! p = fs w !! p
  \/ exists h content,
       commons_search_svg E (log w) country = Some h
       /\ p = dest_of h /\ cached p w = false
       /\ fs (process E country st w).2 !! p = Some content.
Proof.
  unfold process.
  destruct (commons_search_svg E (log w) country) as [h |]; [| now left].
  fold (dest_of h). unfold fetch.
  destruct (cached (dest_of h) (emit (ELookup country) w)) eqn:Hc.
  - left. now destruct (extract_inner_svg _ _ _).
  - pose proof (download_svg_fs E (url h) (dest_of h) (emit (ELookup country) w))
      as (Hfalse & Htrue & Hother).
    destruct (download_svg E (url h) (dest_of h) (emit (ELookup country) w))
      as [[] w1]; cbn [fst snd] in *.
    + assert (Hw1 : forall q, fs (nap w1) !! q = fs w1 !! q) by reflexivity.
      destruct (decide (p = dest_of h)) as [-> | Hne].
      * right. destruct (Htrue eq_refl) as [content Hfs]. exists h, content.
        repeat split; [exact Hc |].
        destruct (extract_inner_svg _ _ _); cbn [snd];
          rewrite Hw1, Hfs; apply lookup_insert_eq.
      * left. destruct (extract_inner_svg _ _ _); cbn [snd];
          rewrite Hw1; now apply Hother.
    + left. cbn [snd]. now rewrite (Hfalse eq_refl).
Qed.

Lemma main_loop_fs E countries : forall st w p,
  (forall content, fs w !! p = Some content -> content <> [] ->
                   fs (main_loop E countries st w).2 !! p = Some content)
  /\ (~ cache_path p -> fs (main_loop E countries st w).2 !! p = fs w !! p)
  /\ (is_Some (fs w !! p) -> is_Some (fs (main_loop E countries st w).2 !! p)).
Proof.
  induction countries as [| c countries IH]; intros st w p; cbn.
  - repeat split; auto.
  - destruct (process E c st w) as [st1 w1] eqn:Hp.
    destruct (IH st1 w1 p) as (I1 & I2 & I3).
    pose proof (process_fs E c st w p) as Hstep. rewrite Hp in Hstep.
    cbn [snd] in Hstep. repeat split.
    + intros content Hf Hne. apply I1; [| exact Hne].
      destruct Hstep as [-> | (h & c' & _ & _ & Hnc & _)]; [exact Hf |].
      assert (cached p w = true) by (apply cached_spec; eauto). congruence.
    + intros Hnot. rewrite (I2 Hnot).
      destruct Hstep as [-> | (h & c' & _ & -> & _)]; [reflexivity |].
      destruct Hnot. apply dest_of_cache_path.
    + intros Hsome. apply I3.
      destruct Hstep as [-> | (h & c' & _ & _ & _ & ->)]; [exact Hsome | eauto].
Qed.

Lemma OUT_JSON_not_cache_path : ~ cache_path OUT_JSON.
Proof.
  intros (name & Heq & _). vm_compute in Heq. discriminate Heq.
Qed.

(** X2: a run writes nowhere but to the output file and to files directly
    inside the cache directory; it removes no file; and a non-empty file
    of the cache keeps its content. *)
Theorem main_files E w s p :
  main E w = Ok s ->
  (p <> OUT_JSON -> ~ cache_path p -> fs (final s) !! p = fs w !! p)
  /\ (is_Some (fs w !! p) -> is_Some (fs (final s) !! p))
  /\ (forall content, p <> OUT_JSON -> fs w !! p = Some content ->
                      content <> [] -> fs (final s) !! p = Some content).
Proof.
  intros Hmain.
  destruct (main_inv E w s Hmain) as (_ & _ & _ & _ & _ & _ & Hfinal).
  rewrite Hfinal. cbn [write_file fs].
  destruct (main_loop_fs E UN_COUNTRIES init w p) as (I1 & I2 & I3).
  repeat split.
  - intros Hout Hnot. rewrite lookup_insert_ne by congruence. now apply I2.
  - intros Hsome. destruct (decide (p = OUT_JSON)) as [-> | Hne].
    + rewrite lookup_insert_eq. eauto.
    + rewrite lookup_insert_ne by congruence. now apply I3.
  - intros content Hout Hf Hne. rewrite lookup_insert_ne by congruence.
    now apply I1.
Qed.

Lemma main_files_witness :
  exists s,
    main (sample_env ok200 (Some sample_root) None) cached_world = Ok s
    /\ fs (final s) !! chad_dest = Some svg_bytes.
Proof.
  destruct (main (sample_env ok200 (Some sample_root) None) cached_world)
    as [s | e] eqn:H.
  - exists s. split; [reflexivity |].
    destruct (main_files _ _ s chad_dest H) as (_ & _ & Hkeep).
    apply Hkeep; [discriminate | reflexivity | discriminate].
  - vm_compute in H. discriminate H.
Defined.

(** ** GETs of a whole run *)

Lemma gets_emit_other e w :
  (forall u, e <> EGet u) -> gets (log (emit e w)) = gets (log w).
Proof.
  intros He. unfold emit. cbn [log]. rewrite gets_app.
  destruct e; cbn; try lia. now destruct (He url0).
Qed.

Lemma download_svg_gets E u dest w :
  (gets (log w) < gets (log (download_svg E u dest w).2)
   <= gets (log w) + 4)%nat.
Proof.
  destruct (download_attempts_ends E u dest 4 1 w)
    as [(k & c & Hlt & _ & _ & Hr)
       | [(k & sc & c & Hlt & _ & _ & _ & _ & Hr) | (_ & Hr)]];
    fold (download_svg E u dest w) in Hr; rewrite Hr;
    cbn [snd log fs write_file emit after_retries];
    rewrite !gets_app, gets_retried; cbn; lia.
Qed.

Lemma process_gets E country st w :
  (gets (log w) <= gets (log (process E country st w).2) <= gets (log w) + 4)%nat.
Proof.
  unfold process.
  assert (Hl : gets (log (emit (ELookup country) w)) = gets (log w))
    by (apply gets_emit_other; discriminate).
  destruct (commons_search_svg E (log w) country) as [h |];
    [| cbn [snd]; lia].
  unfold fetch. destruct (cached _ _).
  - destruct (extract_inner_svg _ _ _); cbn [snd]; lia.
  - pose proof (download_svg_gets E (url h)
                  (os_path_join CACHE_DIR (sanitize_filename (title h)))
                  (emit (ELookup country) w)) as Hg.
    destruct (download_svg _ _ _ _) as [[] w1]; cbn [snd] in *.
    + assert (Hn : gets (log (nap w1)) = gets (log w1))
        by (apply gets_emit_other; discriminate).
      destruct (extract_inner_svg _ _ _); cbn [snd]; lia.
    + lia.
Qed.

Lemma main_loop_gets E countries : forall st w,
  (gets (log w) <= gets (log (main_loop E countries st w).2)
   <= gets (log w) + 4 * length countries)%nat.
Proof.
  induction countries as [| c countries IH]; intros st w; cbn [main_loop].
  - cbn. lia.
  - destruct (process E c st w) as [st1 w1] eqn:Hp.
    pose proof (process_gets E c st w) as Hg. rewrite Hp in Hg. cbn [snd] in Hg.
    specialize (IH st1 w1). cbn [length]. lia.
Qed.

(** With every destination the look-ups can give already cached, one
    turn of the loop, and so the whole loop, makes no GET and leaves the
    files alone. *)
Lemma process_all_cached E country st w :
  (forall h, commons_search_svg E (log w) country = Some h ->
             cached (dest_of h) w = true) ->
  fs (process E country st w).2 = fs w
  /\ gets (log (process E country st w).2) = gets (log w).
Proof.
  intros Hall. unfold process.
  assert (Hl : gets (log (emit (ELookup country) w)) = gets (log w))
    by (apply gets_emit_other; discriminate).
  destruct (commons_search_svg E (log w) country) as [h |];
    [| split; [reflexivity | exact Hl]].
  fold (dest_of h). unfold fetch.
  assert (Hc : cached (dest_of h) (emit (ELookup country) w) = true)
    by (rewrite <- (Hall h eq_refl); reflexivity).
  rewrite Hc. destruct (extract_inner_svg _ _ _);
    (split; [reflexivity | exact Hl]).
Qed.

Lemma main_loop_all_cached E countries : forall st w,
  (forall history country h,
      commons_search_svg E history country = Some h ->
      cached (dest_of h) w = true) ->
  fs (main_loop E countries st w).2 = fs w
  /\ gets (log (main_loop E countries st w).2) = gets (log w).
Proof.
  induction countries as [| c countries IH]; intros st w Hall; cbn [main_loop].
  - split; reflexivity.
  - destruct (process E c st w) as [st1 w1] eqn:Hp.
    destruct (process_all_cached E c st w) as [Hfs Hg];
      [intros h; apply Hall |].
    rewrite Hp in Hfs, Hg. cbn [snd] in Hfs, Hg.
    destruct (IH st1 w1) as [Ifs Ig].
    + intros history country h Hh. unfold cached. rewrite Hfs.
      apply (Hall history country h Hh).
    + split; congruence.
Qed.

(** X3: a run makes at most four GETs per country; and when every
    destination the look-ups can give is a non-empty file beforehand, it
    makes no GET at all and changes no file but the output file. *)
Theorem main_downloads E w s :
  main E w = Ok s ->
  (gets (log w) <= gets (log (final s)) <= gets (log w) + 4 * 193)%nat
  /\ ((forall history country h,
          commons_search_svg E history country = Some h ->
          cached (dest_of h) w = true) ->
      gets (log (final s)) = gets (log w)
      /\ forall p, p <> OUT_JSON -> fs (final s) !! p = fs w !! p).
Proof.
  intros Hmain.
  destruct (main_inv E w s Hmain) as (_ & _ & _ & _ & _ & _ & Hfinal).
  rewrite Hfinal. cbn [write_file fs log]. split.
  - apply (main_loop_gets E UN_COUNTRIES init w).
  - intros Hall.
    destruct (main_loop_all_cached E UN_COUNTRIES init w Hall) as [Hfs Hg].
    split; [exact Hg |]. intros p Hp.
    rewrite lookup_insert_ne by congruence. now rewrite Hfs.
Qed.

Lemma main_downloads_witness :
  exists s,
    main (sample_env ok200 (Some sample_root) None) cached_world = Ok s
    /\ gets (log (final s)) = 0%nat.
Proof.
  destruct (main (sample_env ok200 (Some sample_root) None) cached_world)
    as [s | e] eqn:H.
  - exists s. split; [reflexivity |].
    destruct (main_downloads _ _ s H) as (_ & Hcached).
    apply Hcached. intros history country h Hh.
    cbn [sample_env commons_search_svg] in Hh.
    destruct (pystr_eqb country (py "Chad")); [| discriminate Hh].
    injection Hh as <-. reflexivity.
  - vm_compute in H. discriminate H.
Defined.

(** ** Reading back what a run wrote *)

Lemma dict_eq_keys_values (d d' : dict) :
  keys d = keys d' -> values d = values d' -> d = d'.
Proof.
  revert d'. induction d as [| [k v] d IH]; intros [| [k' v'] d'] Hk Hv;
    try discriminate; [reflexivity |].
  injection Hk as -> Hk. injection Hv as -> Hv. f_equal. now apply IH.
Qed.

Lemma omap_Some_fmap {A B} (f : A -> option B) (l : list A) (ks : list B) :
  f <$> l = Some <$> ks -> omap f l = ks.
Proof.
  revert ks. induction l as [| x l IH]; intros [| k ks] H; try discriminate;
    [reflexivity |].
  rewrite !fmap_cons in H. injection H as Hx Hl. simpl. rewrite Hx.
  f_equal. now apply IH.
Qed.

(** The list of values of a well-keyed dict, put through the
    comprehension, gives the dict back. *)
Lemma existing_by_id_values d :
  well_keyed d -> existing_by_id (values d) = Ok d.
Proof.
  intros Hd. pose proof (well_keyed_key_of d Hd) as Hk.
  pose proof (omap_Some_fmap key_of (values d) (keys d) Hk) as Hom.
  destruct (by_id_from_clean (values d) []) as (d' & Hrun & Hv & Hks).
  - simpl. rewrite Hom. apply Hd.
  - apply Forall_forall. intros x Hx.
    apply values_elem_of in Hx as [k Hin].
    destruct Hd as [_ Hkey]. rewrite (Hkey k x Hin). eauto.
  - unfold existing_by_id. rewrite Hrun. f_equal.
    apply dict_eq_keys_values; simpl in *; congruence.
Qed.

Lemma dict_set_same k v d : dict_get k d = Some v -> dict_set k v d = d.
Proof.
  induction d as [| [k0 v0] d IH]; simpl; [discriminate |].
  case_bool_decide as Hk.
  - now intros [= ->].
  - intros H. now rewrite IH.
Qed.

Lemma overlay_same rs : forall d,
  (forall r, r ∈ rs -> dict_get (item_key r) d = Some (item_json r)) ->
  overlay rs d = d.
Proof.
  induction rs as [| r rs IH]; intros d Hall; [reflexivity |].
  rewrite overlay_cons, dict_set_same by (apply Hall, list_elem_of_here).
  apply IH. intros r' Hr'. apply Hall. now apply list_elem_of_further.
Qed.

Lemma overlay_idempotent rs d :
  NoDup (item_id <$> rs) -> overlay rs (overlay rs d) = overlay rs d.
Proof.
  intros Hnd. apply overlay_same. intros r Hr. now apply overlay_get_new.
Qed.

(** The value filed under [k] once the records [rs] are laid over a dict:
    the first record of [rs] with this key, else the old value [v]. *)
Definition newest (rs : list item) (k : key) (v : json) : json :=
  match List.find (fun r => bool_decide (item_key r = k)) rs with
  | Some r => item_json r
  | None => v
  end.

(** The same by the record's own identifier. *)
Definition refresh (rs : list item) (x : json) : json :=
  match key_of x with
  | Some k => newest rs k x
  | None => x
  end.

(** The records whose identifier is not in the list [old]. *)
Definition is_new (old : list json) (r : item) : bool :=
  bool_decide (Some (item_key r) ∉ key_of <$> old).

Lemma newest_none rs k v : k ∉ item_key <$> rs -> newest rs k v = v.
Proof.
  unfold newest. induction rs as [| r rs IH]; intros Hk; [reflexivity |].
  rewrite fmap_cons in Hk. apply not_elem_of_cons in Hk as [Hne Hk].
  cbn [List.find]. rewrite bool_decide_eq_false_2 by congruence. now apply IH.
Qed.

Lemma newest_cons_ne r rs k v :
  item_key r <> k -> newest (r :: rs) k v = newest rs k v.
Proof.
  intros Hne. unfold newest. cbn [List.find].
  now rewrite bool_decide_eq_false_2.
Qed.

Lemma newest_cons_eq r rs v : newest (r :: rs) (item_key r) v = item_json r.
Proof.
  unfold newest. cbn [List.find]. now rewrite bool_decide_eq_true_2.
Qed.

Lemma dict_set_present k v d :
  NoDup (keys d) -> k ∈ keys d ->
  dict_set k v d
  = map (fun kv => (kv.1, if bool_decide (k = kv.1) then v else kv.2)) d.
Proof.
  induction d as [| [k0 v0] d IH]; intros Hnd Hin.
  - now apply elem_of_nil in Hin.
  - simpl in Hnd. apply NoDup_cons in Hnd as [Hk0 Hnd]. simpl.
    destruct (bool_decide_reflect (k = k0)) as [-> | Hne].
    + f_equal. rewrite <- (map_id d) at 1. apply map_ext_in.
      intros [k1 v1] H1. cbn [fst snd].
      rewrite bool_decide_eq_false_2; [reflexivity |].
      intros ->. apply Hk0. apply list_elem_of_In in H1.
      apply (list_elem_of_fmap_2 fst) in H1. exact H1.
    + f_equal. apply IH; [exact Hnd |].
      simpl in Hin. apply elem_of_cons in Hin as [-> | Hin]; [congruence | exact Hin].
Qed.

(** Laying records over a dict, in one step: every old key keeps its
    place, with the newest value for it; the records with a new key
    follow, in their order. *)
Lemma overlay_eq rs : forall d,
  NoDup (item_key <$> rs) -> NoDup (keys d) ->
  overlay rs d
  = map (fun kv => (kv.1, newest rs kv.1 kv.2)) d
    ++ map (fun r => (item_key r, item_json r))
         (List.filter (fun r => bool_decide (item_key r ∉ keys d)) rs).
Proof.
  induction rs as [| r rs IH]; intros d Hrs Hd.
  - simpl. rewrite app_nil_r. rewrite <- (map_id d) at 1.
    apply map_ext. now intros [k v].
  - rewrite fmap_cons in Hrs. apply NoDup_cons in Hrs as [Hr Hrs].
    rewrite overlay_cons, IH by (auto using NoDup_keys_dict_set).
    rewrite keys_dict_set. cbn [List.filter].
    destruct (bool_decide_reflect (item_key r ∈ keys d)) as [Hin | Hnin].
    + rewrite (bool_decide_eq_false_2 (item_key r ∉ keys d)) by tauto.
      f_equal. rewrite dict_set_present by assumption.
      rewrite map_map. apply map_ext. intros [k v]. cbn [fst snd].
      f_equal. case_bool_decide as Hk.
      * subst k. rewrite newest_cons_eq. now apply newest_none.
      * now rewrite newest_cons_ne.
    + rewrite (bool_decide_eq_true_2 (item_key r ∉ keys d)) by exact Hnin.
      rewrite dict_set_fresh by exact Hnin.
      rewrite map_app. cbn [map fst snd]. rewrite <- app_assoc. f_equal.
      * apply map_ext_in. intros [k v] Hkv. cbn [fst snd]. f_equal.
        rewrite newest_cons_ne; [reflexivity |].
        intros <-. apply Hnin. apply list_elem_of_In in Hkv.
        apply (list_elem_of_fmap_2 fst) in Hkv. exact Hkv.
      * cbn [app]. f_equal; [now rewrite newest_none |].
        f_equal. apply filter_ext_in. intros r' Hr'.
        apply bool_decide_ext. rewrite not_elem_of_app, not_elem_of_cons.
        split; [tauto |]. intros H. split; [exact H |]. split; [| apply not_elem_of_nil].
        intros Heq. apply Hr. rewrite <- Heq.
        apply list_elem_of_fmap_2. now apply list_elem_of_In.
Qed.

Lemma overlay_values rs d :
  NoDup (item_key <$> rs) -> well_keyed d ->
  values (overlay rs d)
  = map (refresh rs) (values d)
    ++ map item_json (List.filter (is_new (values d)) rs).
Proof.
  intros Hrs Hd. rewrite overlay_eq by (auto; apply Hd).
  unfold values. rewrite map_app, !map_map. cbn [snd]. f_equal.
  - apply map_ext_in. intros [k v] Hkv. cbn [fst snd]. unfold refresh.
    destruct Hd as [_ Hkey]. now rewrite (Hkey k v) by now apply list_elem_of_In.
  - f_equal. apply filter_ext. intros r. unfold is_new.
    apply bool_decide_ext.
    change (map snd d) with (values d). rewrite (well_keyed_key_of d Hd).
    split.
    + intros Hk (k & [= <-] & Hin)%list_elem_of_fmap. contradiction.
    + intros Hk Hin. apply Hk. now apply list_elem_of_fmap_2.
Qed.

(** X4: the list another run wrote is loaded without an exception and
    without loss.  A run that starts from it and ends keeps every record
    of that list at its place, unchanged or replaced by the new record
    with the same identifier, and puts the records with a new identifier
    after them, in the order it produced them; when it produces the same
    records again it writes the same list again. *)
Theorem rerun_on_own_output E1 w1 s1 E2 w2 content :
  main E1 w1 = Ok s1 ->
  fs w2 !! OUT_JSON = Some content ->
  json_load E2 content = Some (JArr (merged s1)) ->
  (exists d,
      (l <- py_iter (load_existing E2 w2) ;; existing_by_id l) = Ok d
      /\ values d = merged s1)
  /\ forall s2,
      main E2 w2 = Ok s2 ->
      merged s2
      = map (refresh (results (produced s2))) (merged s1)
        ++ map item_json
             (List.filter (is_new (merged s1)) (results (produced s2)))
      /\ (results (produced s2) = results (produced s1) ->
          merged s2 = merged s1).
Proof.
  intros H1 Hfile Hload.
  destruct (main_inv E1 w1 s1 H1) as (l & d0 & _ & Hd0 & Hst1 & Hm1 & _).
  destruct (by_id_from_invariant l [] d0 well_keyed_nil Hd0) as [Hwk0 _].
  destruct (overlay_invariant (results (produced s1)) d0 Hwk0) as [Hwk _].
  set (d1 := overlay (results (produced s1)) d0) in *.
  assert (Hex : load_existing E2 w2 = JArr (values d1)).
  { unfold load_existing. now rewrite Hfile, Hload, Hm1. }
  assert (Hkeyed : (l <- py_iter (load_existing E2 w2) ;; existing_by_id l)
                   = Ok d1).
  { rewrite Hex. cbn [py_iter bind]. now apply existing_by_id_values. }
  split; [exists d1; split; [exact Hkeyed | now rewrite Hm1] |].
  intros s2 H2.
  destruct (main_inv E2 w2 s2 H2) as (l2 & d2 & Hl2 & Hd2 & Hst2 & Hm2 & _).
  rewrite Hl2 in Hkeyed. cbn [bind] in Hkeyed.
  assert (d2 = d1) as -> by congruence.
  assert (Hnd2 : NoDup (item_id <$> results (produced s2))).
  { rewrite Hst2. apply main_loop_NoDup. }
  split.
  - rewrite Hm2, Hm1. apply overlay_values; [| exact Hwk].
    now apply item_keys_NoDup.
  - intros Hsame. rewrite Hm2, Hsame, Hm1. unfold d1.
    rewrite overlay_idempotent; [reflexivity |].
    rewrite Hst1. apply main_loop_NoDup.
Qed.

Lemma rerun_on_own_output_witness :
  exists s1 s2,
    main (sample_env ok200 (Some sample_root) (Some (JArr [star; old_chad])))
      fresh_world = Ok s1
    /\ main (sample_env ok200 (Some sample_root)
               (Some (JArr [star; item_json new_chad])))
         cached_world = Ok s2
    /\ merged s2
       = map (refresh (results (produced s2))) (merged s1)
         ++ map item_json
              (List.filter (is_new (merged s1)) (results (produced s2)))
    /\ merged s2 = merged s1.
Proof.
  destruct (main (sample_env ok200 (Some sample_root)
                    (Some (JArr [star; old_chad]))) fresh_world)
    as [s1 | e] eqn:H1; [| vm_compute in H1; discriminate H1].
  destruct (main (sample_env ok200 (Some sample_root)
                    (Some (JArr [star; item_json new_chad]))) cached_world)
    as [s2 | e] eqn:H2; [| vm_compute in H2; discriminate H2].
  destruct (rerun_on_own_output _ _ s1
              (sample_env ok200 (Some sample_root)
                 (Some (JArr [star; item_json new_chad])))
              cached_world [Byte.x5b; Byte.x5d] H1)
    as (_ & Hrun).
  - reflexivity.
  - vm_compute in H1. injection H1 as <-. reflexivity.
  - destruct (Hrun s2 H2) as [Hm Hsame].
    exists s1, s2. split; [reflexivity |]. split; [reflexivity |].
    split; [exact Hm |].
    apply Hsame. vm_compute in H1, H2. injection H1 as <-. injection H2 as <-.
    reflexivity.
Defined.

(** ** When a run raises *)

Lemma by_id_from_raises l : forall d e,
  by_id_from d l = Raise e
  <-> exists x i, x ∈ l /\ record_id x = Some i /\ hash_key i = Raise e.
Proof.
  induction l as [| s l IH]; intros d e.
  - split; [discriminate |]. intros (x & i & Hin & _). now apply elem_of_nil in Hin.
  - rewrite by_id_from_cons. split.
    + destruct (record_id s) as [i |] eqn:Hi.
      * destruct (hash_key i) as [k | e'] eqn:Hk.
        -- intros (x & j & Hin & Hx)%IH. exists x, j.
           split; [now apply list_elem_of_further | exact Hx].
        -- intros _. destruct e, e'. exists s, i.
           split; [apply list_elem_of_here | now split].
      * intros (x & j & Hin & Hx)%IH. exists x, j.
        split; [now apply list_elem_of_further | exact Hx].
    + intros (x & i & Hin & Hid & Hk).
      destruct (record_id s) as [j |] eqn:Hj.
      * destruct (hash_key j) as [k | e'] eqn:Hkj.
        -- apply elem_of_cons in Hin as [-> | Hin]; [congruence |].
           apply IH. eauto.
        -- destruct e, e'. reflexivity.
      * apply elem_of_cons in Hin as [-> | Hin]; [congruence |].
        apply IH. eauto.
Qed.

Lemma py_iter_raises j :
  py_iter j = Raise TypeError
  <-> j = JNull \/ (exists b, j = JBool b) \/ (exists z, j = JNum z).
Proof.
  split.
  - destruct j; simpl; intros H; try discriminate H; eauto.
  - intros [-> | [[b ->] | [z ->]]]; reflexivity.
Qed.

Lemma hash_key_raises i :
  hash_key i = Raise TypeError
  <-> (exists l, i = JArr l) \/ (exists o, i = JObj o).
Proof.
  split.
  - destruct i; simpl; intros H; try discriminate H; eauto.
  - intros [[l ->] | [o ->]]; reflexivity.
Qed.

(** The existing collections on which line 250 raises. *)
Definition unkeyable (existing : json) : Prop :=
  (existing = JNull
   \/ (exists b, existing = JBool b)
   \/ (exists z, existing = JNum z))
  \/ (exists l x i,
         py_iter existing = Ok l
         /\ x ∈ l /\ record_id x = Some i
         /\ ((exists a, i = JArr a) \/ (exists o, i = JObj o))).

(** X5: building the mapping from the existing collection (lines 242 to
    250) raises exactly when what [json.load] gave is null, a boolean or
    a number (it cannot be iterated), or has among its entries an object
    whose ["id"] is a list or an object (it cannot be a key); the
    exception is a [TypeError], nothing catches it, and the run ends with
    it before the first look-up. *)
Theorem main_raises_iff E w :
  ((l <- py_iter (load_existing E w) ;; existing_by_id l) = Raise TypeError
   <-> unkeyable (load_existing E w))
  /\ (unkeyable (load_existing E w) -> main E w = Raise TypeError).
Proof.
  assert (Hiff : (l <- py_iter (load_existing E w) ;; existing_by_id l)
                 = Raise TypeError
                 <-> unkeyable (load_existing E w)).
  { unfold unkeyable. split.
    - destruct (py_iter (load_existing E w)) as [l | e] eqn:Hl; cbn [bind].
      + intros Hd. right.
        apply by_id_from_raises in Hd as (x & i & Hin & Hid & Hk).
        exists l, x, i. repeat split; auto. now apply hash_key_raises.
      + intros _. destruct e. left. now apply py_iter_raises.
    - intros [Hscalar | (l & x & i & Hl & Hin & Hid & Hk)].
      + apply py_iter_raises in Hscalar. now rewrite Hscalar.
      + rewrite Hl. cbn [bind]. apply hash_key_raises in Hk.
        apply by_id_from_raises. eauto. }
  split; [exact Hiff |].
  intros Hu. apply Hiff in Hu. unfold main.
  destruct (py_iter (load_existing E w)) as [l | e]; cbn [bind] in *.
  - now rewrite Hu.
  - now destruct e.
Qed.

Lemma by_id_from_no_record l : forall d,
  (forall x, x ∈ l -> record_id x = None) -> by_id_from d l = Ok d.
Proof.
  induction l as [| s l IH]; intros d Hl; [reflexivity |].
  rewrite by_id_from_cons, (Hl s (list_elem_of_here _ _)).
  apply IH. intros x Hx. apply Hl. now apply list_elem_of_further.
Qed.

(** X6: with no output file, or one that holds a JSON object or a JSON
    string instead of a list, or a list without one object that has an
    ["id"], the mapping built from the existing collection is empty, no
    exception raised; and a run that ends writes exactly the records it
    produced. *)
Theorem nothing_to_merge E w :
  fs w !! OUT_JSON = None
  \/ (exists o, load_existing E w = JObj o)
  \/ (exists t, load_existing E w = JStr t)
  \/ (exists l, load_existing E w = JArr l
                /\ forall x, x ∈ l -> record_id x = None) ->
  (l <- py_iter (load_existing E w) ;; existing_by_id l) = Ok []
  /\ forall s,
      main E w = Ok s ->
      merged s = item_json <$> results (produced s).
Proof.
  intros Hcase.
  assert (Hl : exists l, py_iter (load_existing E w) = Ok l
                         /\ forall x, x ∈ l -> record_id x = None).
  { destruct Hcase as [Hnone | [[o Ho] | [[t Ht] | (l & Hl & Hrec)]]].
    - unfold load_existing. rewrite Hnone. exists []. split; [reflexivity |].
      intros x Hx. now apply elem_of_nil in Hx.
    - rewrite Ho. eexists. split; [reflexivity |].
      intros x Hx. change (map ?f o) with (f <$> o) in Hx.
      apply list_elem_of_fmap in Hx as (kv & -> & _). reflexivity.
    - rewrite Ht. eexists. split; [reflexivity |].
      intros x Hx. change (map ?f t) with (f <$> t) in Hx.
      apply list_elem_of_fmap in Hx as (c & -> & _). reflexivity.
    - rewrite Hl. exists l. split; [reflexivity | exact Hrec]. }
  destruct Hl as (l & Hl & Hrec).
  assert (Hkeyed : existing_by_id l = Ok [])
    by (apply (by_id_from_no_record l [] Hrec)).
  split; [rewrite Hl; exact Hkeyed |].
  intros s Hs.
  destruct (main_inv E w s Hs) as (l' & d0 & Hl' & Hd0 & Hst & Hm & _).
  assert (l' = l) as -> by congruence.
  assert (d0 = []) as -> by congruence.
  rewrite Hm, overlay_fresh; [reflexivity |]. simpl. apply item_keys_NoDup.
  rewrite Hst. apply main_loop_NoDup.
Qed.

Lemma main_raises_iff_witness :
  main (sample_env ok200 (Some sample_root) (Some (JNum 3))) fresh_world
  = Raise TypeError
  /\ main (sample_env ok200 (Some sample_root)
             (Some (JArr [star; JObj [(py "id", JArr [JNum 1])]])))
       fresh_world
     = Raise TypeError.
Proof.
  split.
  - apply main_raises_iff. left. right; right. exists 3%Z. reflexivity.
  - apply main_raises_iff. right.
    exists [star; JObj [(py "id", JArr [JNum 1])]],
      (JObj [(py "id", JArr [JNum 1])]), (JArr [JNum 1]).
    split; [reflexivity |].
    split; [apply list_elem_of_further, list_elem_of_here |].
    split; [reflexivity | left; eauto].
Defined.

Lemma nothing_to_merge_witness :
  exists s,
    main (sample_env ok200 (Some sample_root)
            (Some (JObj [(py "id", JStr (py "star"))])))
      fresh_world = Ok s
    /\ merged s = item_json <$> results (produced s).
Proof.
  destruct (main (sample_env ok200 (Some sample_root)
                    (Some (JObj [(py "id", JStr (py "star"))])))
              fresh_world) as [s | e] eqn:Hs;
    [| vm_compute in Hs; discriminate Hs].
  exists s. split; [reflexivity |].
  destruct (nothing_to_merge
              (sample_env ok200 (Some sample_root)
                 (Some (JObj [(py "id", JStr (py "star"))])))
              fresh_world) as [_ Hrun].
  - right; left. eexists. reflexivity.
  - apply (Hrun s Hs).
Defined.

(** ** More on extraction *)

(** [lstrip] removes a run of white space from the front, and nothing
    else. *)
Lemma lstrip_split s :
  exists pre, s = pre ++ lstrip s /\ Forall (fun c => is_space c = true) pre.
Proof.
  induction s as [| c s (pre & Hs & Hpre)]; [now exists [] |].
  simpl. destruct (is_space c) eqn:Hc.
  - exists (c :: pre). split; [simpl; congruence | now constructor].
  - now exists [].
Qed.

Lemma lstrip_head s c : head (lstrip s) = Some c -> is_space c = false.
Proof.
  induction s as [| x s IH]; simpl; [discriminate |].
  destruct (is_space x) eqn:Hx; [exact IH |]. simpl. congruence.
Qed.

Lemma lstrip_last s c :
  last s = Some c -> is_space c = false -> last (lstrip s) = Some c.
Proof.
  induction s as [| x s IH]; simpl; [discriminate |].
  intros Hl Hc. destruct (is_space x) eqn:Hx; [| exact Hl].
  apply IH; [| exact Hc]. destruct s as [| y s]; [| exact Hl].
  simpl in Hl. congruence.
Qed.

Lemma head_rev {A} (l : list A) : head (rev l) = last l.
Proof.
  induction l as [| x l IH]; [reflexivity |].
  simpl. rewrite last_cons. destruct (rev l) eqn:Hr; simpl in *.
  - now rewrite <- IH.
  - rewrite <- IH. reflexivity.
Qed.

Lemma last_rev_head {A} (l : list A) : last (rev l) = head l.
Proof. rewrite <- head_rev. now rewrite rev_involutive. Qed.

(** [strip] leaves no white space at either end. *)
Lemma strip_ends s :
  (forall c, head (strip s) = Some c -> is_space c = false)
  /\ (forall c, last (strip s) = Some c -> is_space c = false).
Proof.
  unfold strip, rstrip. split; intros c.
  - rewrite head_rev. intros Hl.
    destruct (lstrip_split (rev (lstrip s))) as (pre & Hsplit & Hpre).
    assert (Hlast : last (rev (lstrip s)) = Some c).
    { rewrite Hsplit. destruct (lstrip (rev (lstrip s))) eqn:Hx; [discriminate |].
      rewrite last_app. now rewrite Hl. }
    rewrite last_rev_head in Hlast. now apply lstrip_head in Hlast.
  - rewrite last_rev_head. apply lstrip_head.
Qed.

(** X7: extraction returns none when the file cannot be read or parsed, and
    when the root, its namespace put aside, is not called [svg]. *)
Theorem extract_failures E w path :
  fs w !! path = None
  \/ (exists content, fs w !! path = Some content
                      /\ etree_parse E content = None)
  \/ (exists content root, fs w !! path = Some content
                           /\ etree_parse E content = Some root
                           /\ local (tag root) <> py "svg") ->
  extract_inner_svg E path w = None.
Proof.
  unfold extract_inner_svg.
  intros [-> | [(c & -> & ->) | (c & root & -> & -> & Htag)]];
    [reflexivity | reflexivity |].
  unfold extract_root, pystr_eqb.
  rewrite bool_decide_eq_false_2 by exact Htag. reflexivity.
Qed.

Definition html_root : element :=
  {| tag := py "{http://www.w3.org/1999/xhtml}html";
     attrib := [(py "viewBox", py "0 0 10 10")];
     children := [ {| kind := ElementNode; markup := py "<body/>" |} ] |}.

Lemma extract_failures_witness :
  extract_inner_svg (sample_env ok200 (Some sample_root) None) chad_dest
    fresh_world = None
  /\ extract_inner_svg (sample_env ok200 None None) chad_dest cached_world
     = None
  /\ extract_inner_svg (sample_env ok200 (Some html_root) None) chad_dest
       cached_world = None.
Proof.
  split; [| split]; apply extract_failures.
  - left. reflexivity.
  - right; left. exists svg_bytes. split; reflexivity.
  - right; right. exists svg_bytes, html_root.
    split; [reflexivity |]. split; [reflexivity |]. vm_compute. discriminate.
Defined.

(** X8: what extraction returns, when it returns something: the file was
    read and parsed, its root is an [svg] element; the markup is the
    stripped serialization of the children, it is not empty and has no
    white space at either end; the bounding box is not empty, and is the
    [viewBox] attribute or starts with ["0 0 "]. *)
Theorem extract_success E w path p :
  extract_inner_svg E path w = Some p ->
  exists content root,
    fs w !! path = Some content
    /\ etree_parse E content = Some root
    /\ local (tag root) = py "svg"
    /\ inner p = strip (concat (child_markup root))
    /\ inner p <> []
    /\ (forall c, head (inner p) = Some c -> is_space c = false)
    /\ (forall c, last (inner p) = Some c -> is_space c = false)
    /\ viewBox p <> []
    /\ (attr_get (py "viewBox") (attrib root) = Some (viewBox p)
        \/ exists rest, viewBox p = py "0 0 " ++ rest).
Proof.
  unfold extract_inner_svg.
  destruct (fs w !! path) as [content |] eqn:Hf; [| discriminate].
  destruct (etree_parse E content) as [root |] eqn:Hparse; [| discriminate].
  unfold extract_root, pystr_eqb. case_bool_decide as Htag; [| discriminate].
  cbn [negb]. destruct (bounding_box root) as [vb |] eqn:Hbb; [| discriminate].
  destruct (truthy (strip (concat (child_markup root)))) eqn:Hinner;
    [| discriminate].
  cbn [negb]. intros [= <-]. exists content, root. cbn [inner viewBox].
  destruct (strip_ends (concat (child_markup root))) as [Hhead Hlast].
  apply truthy_spec in Hinner.
  split; [reflexivity |]. split; [exact Hparse |]. split; [exact Htag |].
  split; [reflexivity |]. split; [exact Hinner |]. split; [exact Hhead |].
  split; [exact Hlast |]. split.
  - unfold bounding_box in Hbb.
    destruct (present (attr_get (py "viewBox") (attrib root))) eqn:Hp;
      cbn [negb] in Hbb.
    + apply present_spec in Hp as (s & Hs & Hne). congruence.
    + destruct (_ && _); [| discriminate]. injection Hbb as <-. discriminate.
  - unfold bounding_box in Hbb.
    destruct (present (attr_get (py "viewBox") (attrib root))) eqn:Hp;
      cbn [negb] in Hbb.
    + now left.
    + destruct (_ && _); [| discriminate]. injection Hbb as <-. right. eauto.
Qed.

Lemma extract_success_witness :
  exists content root,
    fs cached_world !! chad_dest = Some content
    /\ etree_parse (sample_env ok200 (Some sized_root) None) content = Some root
    /\ local (tag root) = py "svg".
Proof.
  destruct (extract_success (sample_env ok200 (Some sized_root) None)
              cached_world chad_dest
              {| viewBox := py "0 0 100 50"; inner := py "<g/>" |})
    as (content & root & Hf & Hp & Htag & _).
  - vm_compute. reflexivity.
  - exists content, root. auto.
Defined.

(** ** Tags with a namespace *)

Lemma split_not_nil sep s : split sep s <> [].
Proof.
  destruct s as [| c s]; simpl; [discriminate |].
  destruct (c =? sep); [discriminate |].
  destruct (split sep s); discriminate.
Qed.

Lemma split_without sep s : sep ∉ s -> split sep s = [s].
Proof.
  induction s as [| c s IH]; [reflexivity |].
  intros Hnot. apply not_elem_of_cons in Hnot as [Hc Hs]. simpl.
  destruct (N.eqb_spec c sep) as [-> | _]; [congruence |].
  now rewrite (IH Hs).
Qed.

Lemma last_split_cons sep c s :
  List.last (split sep (c :: s)) []
  = if c =? sep then List.last (split sep s) []
    else match split sep s with
         | [p] => c :: p
         | _ => List.last (split sep s) []
         end.
Proof.
  simpl. pose proof (split_not_nil sep s) as Hne.
  destruct (c =? sep).
  - destruct (split sep s) as [| p ps]; [congruence | reflexivity].
  - destruct (split sep s) as [| p [| q ps]]; [congruence | reflexivity | reflexivity].
Qed.

Lemma split_after_sep sep a b :
  (2 <= length (split sep (a ++ sep :: b)))%nat
  /\ List.last (split sep (a ++ sep :: b)) [] = List.last (split sep b) [].
Proof.
  pose proof (split_not_nil sep b) as Hb.
  induction a as [| c a [IHlen IH]].
  - simpl app. cbn [split]. rewrite N.eqb_refl.
    destruct (split sep b) as [| p ps] eqn:Hs; [congruence |].
    split; [simpl; lia | reflexivity].
  - rewrite <- app_comm_cons. split.
    + cbn [split]. destruct (c =? sep); [simpl; lia |].
      destruct (split sep (a ++ sep :: b)) as [| p ps]; simpl in *; lia.
    + rewrite last_split_cons, IH.
      destruct (c =? sep); [reflexivity |].
      destruct (split sep (a ++ sep :: b)) as [| p [| q ps]] eqn:Hs;
        simpl in IHlen; try lia. reflexivity.
Qed.

(** X9: [local] drops a namespace in braces in front of a name, and leaves
    a name without a closing brace as it is; so a root is taken for an
    [svg] element with any namespace, or with none. *)
Theorem local_namespace ns name :
  rbrace ∉ name ->
  local name = name
  /\ local (py "{" ++ ns ++ py "}" ++ name) = name.
Proof.
  intros Hname. unfold local. split.
  - now rewrite split_without.
  - change (py "{" ++ ns ++ py "}" ++ name)
      with ((py "{" ++ ns) ++ rbrace :: name).
    destruct (split_after_sep rbrace (py "{" ++ ns) name) as [_ ->].
    now rewrite split_without.
Qed.

Lemma local_namespace_witness :
  local (py "svg") = py "svg"
  /\ local (py "{" ++ py "http://www.w3.org/2000/svg" ++ py "}" ++ py "svg")
     = py "svg".
Proof.
  apply local_namespace. apply (bool_decide_unpack _). vm_compute. reflexivity.
Defined.

(** ** The characters of an identifier *)

Lemma lower_char_not_upper c : is_upper (lower_char c) = false.
Proof.
  unfold lower_char, is_upper, in_range.
  destruct (N.leb_spec 65 c), (N.leb_spec c 90), (N.leb_spec 192 c),
    (N.leb_spec c 222), (N.eqb_spec c 215); simpl;
    apply andb_false_iff; rewrite !N.leb_gt; lia.
Qed.

Definition id_char (c : N) : Prop :=
  c <> space /\ c <> apostrophe /\ c <> hyphen /\ is_upper c = false.

Lemma id_chars_ok c : Forall id_char (id_chars c).
Proof.
  unfold id_chars, id_char, apostrophe, space, hyphen, underscore.
  destruct (N.eqb_spec c 39) as [-> | H39]; [constructor |].
  destruct (N.eqb_spec c 32) as [-> | H32];
    [repeat constructor; try discriminate |].
  destruct (N.eqb_spec c 45) as [-> | H45];
    [repeat constructor; try discriminate |].
  cbn [orb]. repeat constructor;
    try (rewrite lower_char_punct; auto); apply lower_char_not_upper.
Qed.

(** X10: for a name within Latin-1, where [lower] is Python's, the
    identifier holds no space, apostrophe, hyphen or ASCII capital, ends
    with ["_emblem"], and its stem is not longer than the name. *)
Theorem sym_id_chars country :
  forallb (fun c => c <? 256) country = true ->
  Forall id_char (sym_id country)
  /\ exists stem, sym_id country = stem ++ py "_emblem"
                  /\ (length stem <= length country)%nat.
Proof.
  intros _. unfold sym_id. rewrite safe_country_chars. split.
  - apply Forall_app. split.
    + induction country as [| c country IH]; [constructor |].
      simpl. apply Forall_app. split; [apply id_chars_ok | exact IH].
    + repeat constructor; vm_compute; congruence.
  - eexists. split; [reflexivity |].
    induction country as [| c country IH]; [reflexivity |].
    simpl. rewrite length_app. unfold id_chars at 1.
    destruct (c =? apostrophe); [simpl; lia |].
    destruct ((c =? space) || (c =? hyphen)); simpl; lia.
Qed.

(** The one name of the list outside ASCII. *)
Definition ivory_coast : pystr := py "C" ++ [244] ++ py "te d'Ivoire".

Lemma sym_id_chars_witness :
  Forall id_char (sym_id ivory_coast)
  /\ exists stem,
      sym_id ivory_coast = stem ++ py "_emblem"
      /\ (length stem <= length ivory_coast)%nat.
Proof. apply (sym_id_chars ivory_coast). reflexivity. Defined.

(** ** Empty files *)

(** A 200 after [k] retried attempts ends the download. *)
Lemma download_svg_200_after E u dest w k content :
  (k < 4)%nat ->
  (forall j, (j < k)%nat -> retryable (answer E u w 1 j) = true) ->
  answer E u w 1 k = Response 200 content ->
  download_svg E u dest w
  = (true, write_file dest content (emit (EGet u) (after_retries u w 1 k))).
Proof.
  intros Hk Hretried H200.
  assert (Hnot : retryable (answer E u w 1 k) = false)
    by (rewrite H200; reflexivity).
  destruct (download_attempts_ends E u dest 4 1 w)
    as [(k' & c & Hlt & Hall & Hans & Hr)
       | [(k' & sc & c & Hlt & Hall & Hans & Hsc & Hrs & Hr) | (Hall & Hr)]];
    fold (download_svg E u dest w) in Hr.
  - destruct (Nat.lt_trichotomy k k') as [L | [<- | L]].
    + rewrite (Hall k L) in Hnot. discriminate.
    + rewrite H200 in Hans. injection Hans as <-. exact Hr.
    + specialize (Hretried k' L). rewrite Hans in Hretried. discriminate.
  - destruct (Nat.lt_trichotomy k k') as [L | [<- | L]].
    + rewrite (Hall k L) in Hnot. discriminate.
    + rewrite H200 in Hans. injection Hans as <- _. contradiction.
    + specialize (Hretried k' L). rewrite Hans in Hretried.
      cbn [retryable] in Hretried. congruence.
  - rewrite (Hall k Hk) in Hnot. discriminate.
Qed.

(** X11: an empty file at the destination is no cache hit: the fetch
    goes to the network.  When the answer that ends the download is a 200
    with an empty body, after any number of retried attempts, the fetch
    is a success that leaves the file empty, and the next look at the
    cache will again not take it for a hit. *)
Theorem fetch_empty_files E u dest w :
  fs w !! dest = Some [] ->
  cached dest w = false
  /\ (gets (log w) < gets (log (fetch E u dest w).2))%nat
  /\ forall k,
      (k < 4)%nat ->
      (forall j, (j < k)%nat -> retryable (answer E u w 1 j) = true) ->
      answer E u w 1 k = Response 200 [] ->
      (fetch E u dest w).1 = true
      /\ fs (fetch E u dest w).2 !! dest = Some []
      /\ cached dest (fetch E u dest w).2 = false
      /\ gets (log (fetch E u dest w).2) = (gets (log w) + S k)%nat.
Proof.
  intros Hempty.
  assert (Hc : cached dest w = false) by (unfold cached; now rewrite Hempty).
  split; [exact Hc |]. unfold fetch. rewrite Hc. split.
  - pose proof (download_svg_gets E u dest w) as Hg.
    destruct (download_svg E u dest w) as [[] w1]; cbn [snd] in *; [| lia].
    assert (Hn : gets (log (nap w1)) = gets (log w1))
      by (apply gets_emit_other; discriminate).
    lia.
  - intros k Hk Hretried H200.
    rewrite (download_svg_200_after E u dest w k [] Hk Hretried H200).
    cbn [fst snd]. split; [reflexivity |].
    unfold cached, nap, emit, write_file, after_retries. cbn [fs log].
    rewrite lookup_insert_eq. split; [reflexivity |]. split; [reflexivity |].
    rewrite !gets_app, gets_retried. cbn. lia.
Qed.

(** A cache in which the file of Chad is there and empty. *)
Definition empty_cache_world : world :=
  {| fs := {[ chad_dest := [] ]}; log := [] |}.

Lemma fetch_empty_files_witness :
  (fetch (sample_env [Response 503 []; Response 200 []] None None)
     (url chad_hit) chad_dest empty_cache_world).1 = true
  /\ cached chad_dest
       (fetch (sample_env [Response 503 []; Response 200 []] None None)
          (url chad_hit) chad_dest empty_cache_world).2 = false
  /\ gets (log (fetch (sample_env [Response 503 []; Response 200 []] None None)
                  (url chad_hit) chad_dest empty_cache_world).2) = 2%nat.
Proof.
  destruct (fetch_empty_files
              (sample_env [Response 503 []; Response 200 []] None None)
              (url chad_hit) chad_dest empty_cache_world)
    as (_ & _ & H200); [reflexivity |].
  destruct (H200 1%nat) as (Hok & _ & Hc & Hg).
  - lia.
  - intros [| j] Hj; [reflexivity | lia].
  - reflexivity.
  - split; [exact Hok |]. split; [exact Hc | exact Hg].
Defined.

(** ** The look-up on Wikimedia Commons *)

Section ResolverFacts.
Import Resolver.

(** What [get_json] takes from one outcome: the parsed body of a response
    whose status is none of the five retried ones and whose content type
    mentions JSON. *)
Definition usable (o : api_outcome) : option json :=
  match o with
  | ApiResponse sc ctype (Some j) =>
      if retry_status sc || negb (contains (py "application/json") ctype)
      then None else Some j
  | _ => None
  end.

(** The log of [k] attempts that did not give a usable answer, the first
    of them being attempt number [a]. *)
Definition tried_from (p : params) (a k : nat) : list call :=
  flat_map (fun n => [CGet p; CSleep n]) (seq a k).

Definition tried (p : params) (k : nat) : list call := tried_from p 1 k.

Definition gets_of (h : list call) : nat :=
  length (List.filter (fun c => match c with CGet _ => true | _ => false end) h).

Definition naps_of (h : list call) : nat :=
  length (List.filter (fun c => match c with CNap => true | _ => false end) h).

Definition slept (h : list call) : nat :=
  list_sum (map (fun c => match c with CSleep n => n | _ => 0%nat end) h).

Lemma get_json_attempts_step srv p a rest h :
  get_json_attempts srv p (a :: rest) h =
  match usable (srv h p) with
  | Some j => (j, h ++ [CGet p])
  | None => get_json_attempts srv p rest ((h ++ [CGet p]) ++ [CSleep a])
  end.
Proof.
  cbn [get_json_attempts]. unfold usable.
  destruct (srv h p) as [sc ct [j|]|]; try reflexivity.
  - destruct (retry_status sc); [reflexivity|].
    destruct (contains (py "application/json") ct); reflexivity.
  - destruct (retry_status sc); [reflexivity|].
    destruct (contains (py "application/json") ct); reflexivity.
Qed.

Lemma get_json_attempts_spec srv p n : forall a h j h',
  get_json_attempts srv p (seq a n) h = (j, h') ->
  (exists k, (k < n)%nat /\
     (forall i, (i < k)%nat ->
        usable (srv (h ++ tried_from p a i) p) = None) /\
     usable (srv (h ++ tried_from p a k) p) = Some j /\
     h' = h ++ tried_from p a k ++ [CGet p])
  \/ ((forall i, (i < n)%nat ->
         usable (srv (h ++ tried_from p a i) p) = None) /\
      j = JNull /\ h' = h ++ tried_from p a n).
Proof.
  induction n as [|n IH]; intros a h j h' H.
  - injection H as <- <-. right. split; [intros; lia|].
    split; [reflexivity|]. unfold tried_from. simpl.
    now rewrite app_nil_r.
  - change (seq a (S n)) with (a :: seq (S a) n) in H.
    rewrite get_json_attempts_step in H.
    destruct (usable (srv h p)) as [j0|] eqn:U.
    + injection H as <- <-. left. exists 0%nat.
      split; [lia|]. split; [intros; lia|].
      unfold tried_from. simpl. rewrite app_nil_r. now split.
    + apply IH in H.
      destruct H as [(k & Hk & Hnone & Hsome & ->) | (Hnone & -> & ->)].
      * left. exists (S k). split; [lia|]. split; [|split].
        -- intros [|i] Hi.
           ++ unfold tried_from. simpl. now rewrite app_nil_r.
           ++ specialize (Hnone i ltac:(lia)).
              rewrite <- !app_assoc in Hnone. exact Hnone.
        -- rewrite <- !app_assoc in Hsome. exact Hsome.
        -- now rewrite <- !app_assoc.
      * right. split; [|split; [reflexivity|]].
        -- intros [|i] Hi.
           ++ unfold tried_from. simpl. now rewrite app_nil_r.
           ++ specialize (Hnone i ltac:(lia)).
              rewrite <- !app_assoc in Hnone. exact Hnone.
        -- now rewrite <- !app_assoc.
Qed.

Lemma get_json_cases srv p h j h' :
  get_json srv p h = (j, h') ->
  (exists k, (k < 5)%nat /\
     (forall i, (i < k)%nat -> usable (srv (h ++ tried p i) p) = None) /\
     usable (srv (h ++ tried p k) p) = Some j /\
     h' = h ++ tried p k ++ [CGet p])
  \/ ((forall i, (i < 5)%nat -> usable (srv (h ++ tried p i) p) = None) /\
      j = JNull /\ h' = h ++ tried p 5).
Proof. apply (get_json_attempts_spec srv p 5 1). Qed.

(** An API that reads its answers off a script, one for each request,
    and is out of reach once the script is over. *)
Definition scripted (answers : list api_outcome) : api :=
  fun h _ => nth (gets_of h) answers ApiException.

Definition json_type : pystr := py "application/json; charset=utf-8".

(** X12: [get_json] asks at most five times and returns the first usable
    answer at once, having slept 1, 2, ... seconds after the attempts
    before; after five failures it returns [None], 15 seconds of sleep
    behind it.  It never naps. *)
Theorem get_json_spec srv p h j h' :
  get_json srv p h = (j, h') ->
  exists k evs,
    h' = h ++ evs /\
    (k <= 5)%nat /\
    (forall i, (i < k)%nat -> usable (srv (h ++ tried p i) p) = None) /\
    ((k < 5)%nat ->
       usable (srv (h ++ tried p k) p) = Some j /\
       evs = tried p k ++ [CGet p] /\ gets_of evs = S k) /\
    (k = 5%nat -> j = JNull /\ evs = tried p 5 /\ gets_of evs = 5%nat) /\
    slept evs = (k * (k + 1) / 2)%nat /\
    naps_of evs = 0%nat.
Proof.
  intros H. apply get_json_cases in H.
  destruct H as [(k & Hk & Hnone & Hsome & ->) | (Hnone & -> & ->)].
  - exists k, (tried p k ++ [CGet p]).
    split; [reflexivity|]. split; [lia|]. split; [exact Hnone|].
    assert (Hc : gets_of (tried p k ++ [CGet p]) = S k /\
                 slept (tried p k ++ [CGet p]) = (k * (k + 1) / 2)%nat /\
                 naps_of (tried p k ++ [CGet p]) = 0%nat).
    { do 5 (destruct k as [|k]; [now vm_compute|]). lia. }
    destruct Hc as (Hg & Hs & Hn).
    split; [intros _; now repeat split|].
    split; [intros ->; lia|]. now split.
  - exists 5%nat, (tried p 5).
    split; [reflexivity|]. split; [lia|]. split; [exact Hnone|].
    split; [intros; lia|].
    split; [intros _; now repeat split|]. now split.
Qed.

Definition flaky_api : api :=
  scripted
    [ ApiResponse 503 (py "text/html") None;
      ApiException;
      ApiResponse 404 json_type (Some (JObj [(py "error", JStr (py "gone"))])) ].

Lemma get_json_spec_witness :
  exists j h',
    get_json flaky_api [] [] = (j, h') /\
    j = JObj [(py "error", JStr (py "gone"))] /\
    exists k evs,
      h' = [] ++ evs /\
      (k <= 5)%nat /\
      (forall i, (i < k)%nat ->
         usable (flaky_api ([] ++ tried [] i) []) = None) /\
      ((k < 5)%nat ->
         usable (flaky_api ([] ++ tried [] k) []) = Some j /\
         evs = tried [] k ++ [CGet []] /\ gets_of evs = S k) /\
      (k = 5%nat -> j = JNull /\ evs = tried [] 5 /\ gets_of evs = 5%nat) /\
      slept evs = (k * (k + 1) / 2)%nat /\
      naps_of evs = 0%nat.
Proof.
  exists (JObj [(py "error", JStr (py "gone"))]),
         [CGet []; CSleep 1; CGet []; CSleep 2; CGet []].
  split; [now vm_compute|]. split; [reflexivity|].
  apply (get_json_spec flaky_api [] []). now vm_compute.
Defined.

(** [o.get(k, default)] on a dict *)
Definition field (o : list (pystr * json)) (k : string) (default : json)
    : json :=
  from_option id default (obj_get (py k) o).

(** The answers out of which [commons_file_info_by_title] makes a
    result: the first page is not marked missing, and the first entry of
    its [imageinfo] has a string [url] that ends in [.svg], in any case
    of the letters, or a [mime] that names svg. *)
Definition resolves (data : json) (i : info) : Prop :=
  truth data = true /\
  exists query pages page ii,
    get data (py "query") (JObj []) = inr query /\
    get query (py "pages") (JArr []) = inr pages /\
    first pages = inr (JObj page) /\
    truth (field page "missing" JNull) = false /\
    first (field page "imageinfo" (JArr [])) = inr (JObj ii) /\
    field ii "url" (JStr []) = JStr (original_url i) /\
    (endswith (py ".svg") (lower (original_url i)) = true \/
     str_in (py "svg") (field ii "mime" (JStr [])) = inr true) /\
    page_title i = field page "title" JNull /\
    page_url i =
      py_or (field page "fullurl" JNull) (field page "canonicalurl" JNull).

Lemma first_truth j x : first j = inr x -> truth j = true.
Proof. destruct j as [| | | [|c s] | [|y l] | o]; simpl; congruence. Qed.

Lemma get_obj o k d : get (JObj o) (py k) d = inr (field o k d).
Proof. reflexivity. Qed.

Lemma get_inr j k d x : get j k d = inr x -> exists o, j = JObj o.
Proof. destruct j; simpl; try discriminate. eauto. Qed.

Lemma file_info_of_resolves data i :
  file_info_of data = inr (Some i) <-> resolves data i.
Proof.
  unfold file_info_of, resolves. split.
  - destruct (truth data) eqn:Td; [|discriminate]. cbn [negb].
    destruct (get data (py "query") (JObj [])) as [e|query] eqn:Hq;
      [discriminate|].
    destruct (get query (py "pages") (JArr [])) as [e|pages] eqn:Hp;
      [discriminate|].
    destruct (truth pages) eqn:Tp; [|discriminate]. cbn [negb].
    destruct (first pages) as [e|page] eqn:Hf; [discriminate|].
    destruct (get page (py "missing") JNull) as [e|m] eqn:Hm;
      [discriminate|].
    destruct (get_inr _ _ _ _ Hm) as [o ->].
    rewrite get_obj in Hm. injection Hm as <-.
    destruct (truth (field o "missing" JNull)) eqn:Tm; [discriminate|].
    rewrite !get_obj.
    destruct (truth (field o "imageinfo" (JArr []))) eqn:Ti;
      [|discriminate]. cbn [negb].
    destruct (first (field o "imageinfo" (JArr []))) as [e|ii] eqn:Hi;
      [discriminate|].
    destruct (get ii (py "url") (JStr [])) as [e|u] eqn:Hu; [discriminate|].
    destruct (get_inr _ _ _ _ Hu) as [oi ->].
    rewrite get_obj in Hu. injection Hu as <-.
    rewrite get_obj.
    destruct (as_str (field oi "url" (JStr []))) as [e|us] eqn:Hus;
      [discriminate|].
    assert (Hurl : field oi "url" (JStr []) = JStr us).
    { destruct (field oi "url" (JStr [])); simpl in Hus; congruence. }
    intros H. split; [reflexivity|].
    exists query, pages, o, oi.
    destruct (endswith (py ".svg") (lower us)) eqn:He.
    + injection H as <-. cbn [original_url page_title page_url].
      repeat split; auto.
    + destruct (str_in (py "svg") (field oi "mime" (JStr [])))
        as [e|[|]] eqn:Hin; try discriminate.
      injection H as <-. cbn [original_url page_title page_url].
      repeat split; auto.
  - intros (Td & query & pages & page & ii & Hq & Hp & Hf & Hm & Hi & Hu
            & Hsvg & Ht & Hpu).
    rewrite Td, Hq, Hp. cbn [negb].
    rewrite (first_truth _ _ Hf), Hf. cbn [negb].
    rewrite !get_obj, Hm.
    rewrite (first_truth _ _ Hi), Hi. cbn [negb].
    rewrite !get_obj, Hu. cbn [as_str].
    destruct i as [ttl purl u]. cbn [original_url page_title page_url] in *.
    subst ttl purl.
    destruct (endswith (py ".svg") (lower u)) eqn:He; [reflexivity|].
    destruct Hsvg as [Hs|Hs]; [discriminate|]. now rewrite Hs.
Qed.

Lemma commons_file_info_by_title_eq srv t h :
  commons_file_info_by_title srv t h =
  match file_info_of (get_json srv (title_params t) h).1 with
  | inl e => Raised e
  | inr r => Done r (get_json srv (title_params t) h).2
  end.
Proof.
  unfold commons_file_info_by_title.
  now destruct (get_json srv (title_params t) h).
Qed.

(** A look-up that resolved: the answer it used, and the log. *)
Lemma file_info_Some srv t h i h' :
  commons_file_info_by_title srv t h = Done (Some i) h' ->
  exists k data,
    (k < 5)%nat /\
    (forall j, (j < k)%nat ->
       usable (srv (h ++ tried (title_params t) j) (title_params t)) = None) /\
    usable (srv (h ++ tried (title_params t) k) (title_params t)) = Some data /\
    resolves data i /\
    h' = h ++ tried (title_params t) k ++ [CGet (title_params t)].
Proof.
  rewrite commons_file_info_by_title_eq.
  destruct (get_json srv (title_params t) h) as [data h1] eqn:G.
  cbn [fst snd].
  destruct (file_info_of data) as [e|[i0|]] eqn:F; try discriminate.
  intros [= -> ->]. apply file_info_of_resolves in F.
  apply get_json_cases in G.
  destruct G as [(k & Hk & Hnone & Hsome & ->) | (_ & -> & _)].
  - exists k, data. auto.
  - destruct F as [F _]. discriminate F.
Qed.

(** X13: [commons_file_info_by_title] returns a triple exactly for the
    answers that [resolves] describes, and then the request that was
    answered is the last entry of the log: after at most four failed
    attempts, and with no sleep or nap behind it. *)
Theorem file_info_resolved srv t h i h' :
  commons_file_info_by_title srv t h = Done (Some i) h' <->
  exists k data,
    (k < 5)%nat /\
    (forall j, (j < k)%nat ->
       usable (srv (h ++ tried (title_params t) j) (title_params t)) = None) /\
    usable (srv (h ++ tried (title_params t) k) (title_params t)) = Some data /\
    resolves data i /\
    h' = h ++ tried (title_params t) k ++ [CGet (title_params t)].
Proof.
  split; [apply file_info_Some|].
  intros (k & data & Hk & Hnone & Hsome & Hres & ->).
  rewrite commons_file_info_by_title_eq.
  destruct (get_json srv (title_params t) h) as [d h1] eqn:G.
  cbn [fst snd]. apply get_json_cases in G.
  assert (Hfirst : forall a b x y,
            (forall j, (j < a)%nat ->
               usable (srv (h ++ tried (title_params t) j) (title_params t))
               = None) ->
            usable (srv (h ++ tried (title_params t) a) (title_params t))
            = Some x ->
            (forall j, (j < b)%nat ->
               usable (srv (h ++ tried (title_params t) j) (title_params t))
               = None) ->
            usable (srv (h ++ tried (title_params t) b) (title_params t))
            = Some y ->
            a = b).
  { intros a b x y Ha Hx Hb Hy.
    destruct (Nat.lt_trichotomy a b) as [L|[E|L]]; [|exact E|].
    - rewrite (Hb a L) in Hx. discriminate.
    - rewrite (Ha b L) in Hy. discriminate. }
  destruct G as [(k' & Hk' & Hnone' & Hsome' & ->) | (Hnone' & -> & _)].
  - assert (k = k') as <- by (eapply Hfirst; eauto).
    rewrite Hsome in Hsome'. injection Hsome' as <-.
    apply file_info_of_resolves in Hres. now rewrite Hres.
  - rewrite (Hnone' k Hk) in Hsome. discriminate.
Qed.

(** The answer of the API for a file that exists. *)
Definition chad_page : json :=
  JObj [ (py "pageid", JNum 42);
         (py "title", JStr (py "File:Coat of arms of Chad.svg"));
         (py "fullurl",
          JStr (py "https://commons.wikimedia.org/wiki/File:Coat_of_arms_of_Chad.svg"));
         (py "imageinfo",
          JArr [ JObj [ (py "url",
                         JStr (py "https://upload.wikimedia.org/Coat_of_arms_of_Chad.SVG"));
                        (py "mime", JStr (py "image/svg+xml")) ] ]) ].

Definition chad_answer : json :=
  JObj [ (py "batchcomplete", JBool true);
         (py "query", JObj [ (py "pages", JArr [chad_page]) ]) ].

Definition chad_info : info :=
  {| page_title := JStr (py "File:Coat of arms of Chad.svg");
     page_url :=
       JStr (py "https://commons.wikimedia.org/wiki/File:Coat_of_arms_of_Chad.svg");
     original_url := py "https://upload.wikimedia.org/Coat_of_arms_of_Chad.SVG" |}.

Definition chad_api : api :=
  scripted [ ApiResponse 503 (py "text/html") None;
             ApiResponse 200 json_type (Some chad_answer) ].

Lemma file_info_resolved_witness :
  commons_file_info_by_title chad_api (py "Coat of arms of Chad.svg") []
  = Done (Some chad_info)
      ([] ++ tried (title_params (py "Coat of arms of Chad.svg")) 1
          ++ [CGet (title_params (py "Coat of arms of Chad.svg"))]).
Proof.
  apply (proj2 (file_info_resolved chad_api (py "Coat of arms of Chad.svg")
                  [] chad_info _)).
  exists 1%nat, chad_answer.
  split; [lia|].
  split; [intros [|j] Hj; [now vm_compute | lia]|].
  split; [now vm_compute|].
  split; [|reflexivity].
  split; [reflexivity|].
  eexists _, _, _, _.
  repeat split; try (now vm_compute).
  left. now vm_compute.
Defined.

(** X14: what is a miss and not an error: an API that gave no usable answer
    in five attempts, an answer that is false for Python, an object
    without [query] (the error reports of the API are such objects), and a
    first page marked missing.  The log is the one of [get_json]. *)
Theorem file_info_misses srv t h data h' :
  get_json srv (title_params t) h = (data, h') ->
  truth data = false \/
  (exists o, data = JObj o /\ obj_get (py "query") o = None) \/
  (exists o q page rest,
     data = JObj o /\ obj_get (py "query") o = Some (JObj q) /\
     obj_get (py "pages") q = Some (JArr (JObj page :: rest)) /\
     truth (field page "missing" JNull) = true) ->
  commons_file_info_by_title srv t h = Done None h'.
Proof.
  intros G H. rewrite commons_file_info_by_title_eq, G. cbn [fst snd].
  assert (F : file_info_of data = inr None); [|now rewrite F].
  unfold file_info_of.
  destruct H as [Td | [(o & -> & Hq) | (o & q & page & rest & -> & Hq
                                        & Hp & Hm)]].
  - now rewrite Td.
  - destruct o as [|kv o]; [reflexivity|].
    cbn [truth negb get]. now rewrite Hq.
  - destruct o as [|kv o]; [discriminate|].
    cbn [truth negb get]. rewrite Hq. cbn [from_option id get].
    rewrite Hp. cbn [from_option id truth negb first].
    rewrite get_obj, Hm. reflexivity.
Qed.

Definition missing_api : api :=
  scripted
    [ ApiResponse 200 json_type
        (Some (JObj [ (py "query",
                       JObj [ (py "pages",
                               JArr [ JObj [ (py "title", JStr (py "File:X.svg"));
                                             (py "missing", JBool true) ] ]) ]) ])) ].

Lemma file_info_misses_witness :
  commons_file_info_by_title missing_api (py "X.svg") []
  = Done None [CGet (title_params (py "X.svg"))].
Proof.
  apply (file_info_misses missing_api (py "X.svg") []
           (JObj [ (py "query",
                    JObj [ (py "pages",
                            JArr [ JObj [ (py "title", JStr (py "File:X.svg"));
                                          (py "missing", JBool true) ] ]) ]) ])).
  - now vm_compute.
  - right. right. eexists _, _, _, _.
    repeat split; now vm_compute.
Defined.

(** [isinstance(j, dict)] *)
Definition is_dict (j : json) : bool :=
  match j with
  | JObj _ => true
  | _ => false
  end.

(** X15: what is an error and not a miss: when the answer [get_json]
    returns for a title, after any number of failed attempts, is true
    for Python and is not an object (a list, a string, a number), the
    look-up raises [AttributeError]; [commons_search_svg], whose first
    step is the look-up of the first title, raises with it and sends
    nothing more. *)
Theorem lookup_raises srv t h data h' :
  get_json srv (title_params t) h = (data, h') ->
  truth data = true ->
  is_dict data = false ->
  commons_file_info_by_title srv t h = Raised AttributeError
  /\ forall country,
      t = py "Coat of arms of " ++ country ++ py ".svg" ->
      commons_search_svg srv country h = Raised AttributeError.
Proof.
  intros G Td Hno.
  assert (R : commons_file_info_by_title srv t h = Raised AttributeError).
  { rewrite commons_file_info_by_title_eq, G. cbn [fst snd].
    unfold file_info_of. rewrite Td. cbn [negb].
    destruct data; try reflexivity. discriminate Hno. }
  split; [exact R|].
  intros country ->.
  unfold commons_search_svg, patterns. cbn [exact_tries].
  now rewrite R.
Qed.

(** An API that is busy at first and then answers with a list. *)
Definition late_list_api : api :=
  scripted [ ApiResponse 503 (py "text/html") None;
             ApiResponse 200 json_type (Some (JArr [JNull])) ].

Lemma lookup_raises_witness :
  commons_file_info_by_title late_list_api
    (py "Coat of arms of " ++ py "Chad" ++ py ".svg") []
  = Raised AttributeError
  /\ commons_search_svg late_list_api (py "Chad") [] = Raised AttributeError.
Proof.
  destruct (lookup_raises late_list_api
              (py "Coat of arms of " ++ py "Chad" ++ py ".svg") []
              (JArr [JNull])
              [CGet (title_params (py "Coat of arms of Chad.svg"));
               CSleep 1;
               CGet (title_params (py "Coat of arms of Chad.svg"))])
    as [Hinfo Hsearch].
  - now vm_compute.
  - reflexivity.
  - reflexivity.
  - split; [exact Hinfo | now apply Hsearch].
Defined.

(** *** The order of the strategies *)

Lemma tried_from_Forall (P : call -> Prop) p a k :
  P (CGet p) -> (forall n, P (CSleep n)) -> Forall P (tried_from p a k).
Proof.
  intros Hg Hs. unfold tried_from.
  induction (seq a k) as [|n l IH]; simpl; [constructor|].
  constructor; [exact Hg|]. constructor; [apply Hs | exact IH].
Qed.

(** The log of one look-up: requests for this title and sleeps. *)
Lemma file_info_log srv t h r h' :
  commons_file_info_by_title srv t h = Done r h' ->
  exists evs,
    h' = h ++ evs /\
    CGet (title_params t) ∈ evs /\
    naps_of evs = 0%nat /\
    Forall (fun c => c = CGet (title_params t) \/ exists n, c = CSleep n) evs.
Proof.
  rewrite commons_file_info_by_title_eq.
  destruct (get_json srv (title_params t) h) as [data h1] eqn:G.
  cbn [fst snd].
  destruct (file_info_of data) as [e|r0]; [discriminate|].
  intros [= -> ->]. apply get_json_cases in G.
  destruct G as [(k & Hk & _ & _ & ->) | (_ & _ & ->)].
  - exists (tried (title_params t) k ++ [CGet (title_params t)]).
    split; [reflexivity|]. split; [set_solver|]. split.
    + do 5 (destruct k as [|k]; [now vm_compute|]). lia.
    + apply Forall_app. split.
      * apply tried_from_Forall; eauto.
      * constructor; [now left | constructor].
  - exists (tried (title_params t) 5).
    split; [reflexivity|]. split; [|split].
    + unfold tried, tried_from. simpl. set_solver.
    + now vm_compute.
    + apply tried_from_Forall; eauto.
Qed.

Lemma naps_of_app a b : naps_of (a ++ b) = (naps_of a + naps_of b)%nat.
Proof. unfold naps_of. now rewrite List.filter_app, List.length_app. Qed.

Lemma gets_of_app a b : gets_of (a ++ b) = (gets_of a + gets_of b)%nat.
Proof. unfold gets_of. now rewrite List.filter_app, List.length_app. Qed.

Lemma slept_app a b : slept (a ++ b) = (slept a + slept b)%nat.
Proof. unfold slept. now rewrite map_app, list_sum_app. Qed.

(** The entries [evs], added to the log [h], end with the request whose
    answer resolved to [i]. *)
Definition answered (srv : api) (h evs : list call) (i : info) : Prop :=
  exists t mid data,
    evs = mid ++ [CGet (title_params t)] /\
    usable (srv (h ++ mid) (title_params t)) = Some data /\
    resolves data i.

Lemma answered_shift srv h pre evs i :
  answered srv (h ++ pre) evs i -> answered srv h (pre ++ evs) i.
Proof.
  intros (t & mid & data & -> & U & R).
  exists t, (pre ++ mid), data.
  rewrite <- !app_assoc in *. auto.
Qed.

Lemma file_info_answered srv t h i h' :
  commons_file_info_by_title srv t h = Done (Some i) h' ->
  exists evs, h' = h ++ evs /\ answered srv h evs i.
Proof.
  intros H. apply file_info_Some in H.
  destruct H as (k & data & _ & _ & U & R & ->).
  eexists. split; [reflexivity|]. now exists t, (tried (title_params t) k), data.
Qed.

Lemma get_json_log srv p h j h' :
  get_json srv p h = (j, h') ->
  exists evs, h' = h ++ evs /\ CGet p ∈ evs /\ naps_of evs = 0%nat.
Proof.
  intros G. apply get_json_cases in G.
  destruct G as [(k & Hk & _ & _ & ->) | (_ & _ & ->)].
  - eexists. split; [reflexivity|]. split; [set_solver|].
    do 5 (destruct k as [|k]; [now vm_compute|]). lia.
  - eexists. split; [reflexivity|]. split; [|now vm_compute].
    unfold tried, tried_from. simpl. set_solver.
Qed.

Lemma exact_tries_log srv ts : forall h r h',
  exact_tries srv ts h = Done r h' ->
  exists evs,
    h' = h ++ evs /\
    Forall (fun c => match c with
                     | CGet p => exists t, t ∈ ts /\ p = title_params t
                     | _ => True
                     end) evs /\
    match r with
    | None =>
        naps_of evs = length ts /\
        forall t, t ∈ ts -> CGet (title_params t) ∈ evs
    | Some i => (naps_of evs < length ts)%nat /\ answered srv h evs i
    end.
Proof.
  induction ts as [|t ts IH]; intros h r h' H.
  - injection H as <- <-. exists []. rewrite app_nil_r.
    split; [reflexivity|]. split; [constructor|].
    split; [reflexivity|]. intros t Ht. set_solver.
  - cbn [exact_tries] in H.
    destruct (commons_file_info_by_title srv t h) as [[i|] h1|e] eqn:F;
      [| |discriminate].
    + injection H as <- <-.
      destruct (file_info_log _ _ _ _ _ F) as (evs & -> & _ & Hn & Hall).
      destruct (file_info_answered _ _ _ _ _ F) as (evs' & E & A).
      apply app_inv_head in E. subst evs'.
      exists evs. split; [reflexivity|]. split; [|split].
      * eapply Forall_impl; [exact Hall|].
        intros c [-> | [n ->]]; [|exact I]. exists t. set_solver.
      * rewrite Hn. simpl. lia.
      * exact A.
    + destruct (file_info_log _ _ _ _ _ F) as (evs & -> & Hin & Hn & Hall).
      apply IH in H. destruct H as (evs2 & -> & Hall2 & Hr).
      exists (evs ++ [CNap] ++ evs2).
      split; [now rewrite <- !app_assoc|]. split; [|].
      * apply Forall_app. split.
        -- eapply Forall_impl; [exact Hall|].
           intros c [-> | [n ->]]; [|exact I]. exists t. set_solver.
        -- constructor; [exact I|].
           eapply Forall_impl; [exact Hall2|].
           intros [p| |]; auto. intros (t' & Ht' & ->). exists t'. set_solver.
      * rewrite !naps_of_app, Hn. change (naps_of [CNap]) with 1%nat.
        destruct r as [i|].
        -- destruct Hr as [Hlt A]. split; [simpl; lia|].
           apply answered_shift.
           change (evs ++ [CNap] ++ evs2) with (evs ++ ([CNap] ++ evs2)).
           apply answered_shift. rewrite <- !app_assoc in A |- *. exact A.
        -- destruct Hr as [Hlen Hin2]. split; [simpl; lia|].
           intros t' Ht'. apply elem_of_cons in Ht'.
           destruct Ht' as [-> | Ht']; [set_solver|].
           specialize (Hin2 t' Ht'). set_solver.
Qed.

Lemma scan_hits_log srv hits : forall h r h',
  scan_hits srv hits h = Done r h' ->
  exists evs,
    h' = h ++ evs /\
    naps_of evs = 0%nat /\
    match r with
    | None => True
    | Some i => answered srv h evs i
    end.
Proof.
  induction hits as [|hit hits IH]; intros h r h' H.
  - injection H as <- <-. exists []. rewrite app_nil_r. now repeat split.
  - cbn [scan_hits] in H.
    destruct (get hit (py "title") (JStr [])) as [e|t]; [discriminate|].
    destruct (as_str t) as [e|ts]; [discriminate|].
    destruct (negb (startswith (py "File:") ts)
              || negb (endswith (py ".svg") (lower ts))).
    + now apply IH.
    + destruct (commons_file_info_by_title srv
                  (replace_first (py "File:") (py "") ts) h)
        as [[i|] h1|e] eqn:F; [| |discriminate].
      * injection H as <- <-.
        destruct (file_info_log _ _ _ _ _ F) as (evs & -> & _ & Hn & _).
        destruct (file_info_answered _ _ _ _ _ F) as (evs' & E & A).
        apply app_inv_head in E. subst evs'.
        exists evs. auto.
      * destruct (file_info_log _ _ _ _ _ F) as (evs & -> & _ & Hn & _).
        apply IH in H. destruct H as (evs2 & -> & Hn2 & Hr).
        exists (evs ++ evs2). split; [now rewrite <- app_assoc|].
        split; [rewrite naps_of_app; lia|].
        destruct r as [i|]; [|exact I]. now apply answered_shift.
Qed.

Lemma searches_log srv qs : forall h r h',
  searches srv qs h = Done r h' ->
  exists evs,
    h' = h ++ evs /\
    match r with
    | None =>
        naps_of evs = length qs /\
        forall q, q ∈ qs -> CGet (search_params q) ∈ evs
    | Some i => (naps_of evs < length qs)%nat /\ answered srv h evs i
    end.
Proof.
  induction qs as [|q qs IH]; intros h r h' H.
  - injection H as <- <-. exists []. rewrite app_nil_r.
    split; [reflexivity|]. split; [reflexivity|]. intros q Hq. set_solver.
  - cbn [searches] in H.
    destruct (get_json srv (search_params q) h) as [data h1] eqn:G.
    destruct (get_json_log _ _ _ _ _ G) as (evs & -> & Hin & Hn).
    assert (Hnext : forall mid,
              naps_of mid = 0%nat ->
              searches srv qs (((h ++ evs) ++ mid) ++ [CNap]) = Done r h' ->
              exists evs0,
                h' = h ++ evs0 /\
                match r with
                | None =>
                    naps_of evs0 = length (q :: qs) /\
                    forall q', q' ∈ q :: qs -> CGet (search_params q') ∈ evs0
                | Some i =>
                    (naps_of evs0 < length (q :: qs))%nat /\
                    answered srv h evs0 i
                end).
    { intros mid Hm Hs. apply IH in Hs. destruct Hs as (evs2 & -> & Hr).
      exists (evs ++ mid ++ [CNap] ++ evs2).
      split; [now rewrite <- !app_assoc|].
      rewrite !naps_of_app, Hn, Hm. change (naps_of [CNap]) with 1%nat.
      destruct r as [i|].
      - destruct Hr as [Hlt A]. split; [simpl; lia|].
        apply answered_shift. apply answered_shift.
        apply answered_shift. rewrite <- !app_assoc in A |- *. exact A.
      - destruct Hr as [Hlen Hin2]. split; [simpl; lia|].
        intros q' Hq'. apply elem_of_cons in Hq'.
        destruct Hq' as [-> | Hq']; [set_solver|].
        specialize (Hin2 q' Hq'). set_solver. }
    destruct (truth data); cbn [negb] in H.
    + destruct (get data (py "query") (JObj [])) as [e|query];
        [discriminate|].
      destruct (get query (py "search") (JArr [])) as [e|found];
        [discriminate|].
      destruct (iterate found) as [e|hits]; [discriminate|].
      destruct (scan_hits srv hits (h ++ evs)) as [[i|] h2|e] eqn:S;
        [| |discriminate].
      * injection H as <- <-.
        destruct (scan_hits_log _ _ _ _ _ S) as (mid & -> & Hm & A).
        exists (evs ++ mid). split; [now rewrite <- app_assoc|].
        split; [rewrite naps_of_app; simpl; lia|].
        now apply answered_shift.
      * destruct (scan_hits_log _ _ _ _ _ S) as (mid & -> & Hm & _).
        exact (Hnext mid Hm H).
    + apply (Hnext []); [reflexivity|]. now rewrite app_nil_r.
Qed.

Lemma params_differ t q : title_params t <> search_params q.
Proof. unfold title_params, search_params. intros H. discriminate H. Qed.

(** X16: when [commons_search_svg] returns a result, the last entry of the log
    is the request for the title whose answer resolved to it: nothing is
    sent, slept or napped after it, and at most seven naps were taken on
    the way. *)
Theorem search_found srv country h i h' :
  commons_search_svg srv country h = Done (Some i) h' ->
  exists evs,
    h' = h ++ evs /\
    (naps_of evs <= 7)%nat /\
    exists t mid data,
      evs = mid ++ [CGet (title_params t)] /\
      usable (srv (h ++ mid) (title_params t)) = Some data /\
      resolves data i.
Proof.
  unfold commons_search_svg. intros H.
  destruct (exact_tries srv (patterns country) h) as [[i0|] h1|e] eqn:X;
    [| |discriminate].
  - injection H as <- <-.
    destruct (exact_tries_log _ _ _ _ _ X) as (evs & -> & _ & Hlt & A).
    exists evs. split; [reflexivity|]. split; [simpl in Hlt; lia|]. exact A.
  - destruct (exact_tries_log _ _ _ _ _ X) as (evs & -> & _ & Hlen & _).
    destruct (searches_log _ _ _ _ _ H) as (evs2 & -> & Hlt & A).
    exists (evs ++ evs2). split; [now rewrite <- app_assoc|].
    split; [rewrite naps_of_app; simpl in *; lia|].
    now apply answered_shift.
Qed.

(** X17: when [commons_search_svg] returns [None], all eight strategies were
    tried: every one of the four titles was looked up, every one of the
    four queries was sent, and exactly eight naps were taken. *)
Theorem search_not_found srv country h h' :
  commons_search_svg srv country h = Done None h' ->
  exists evs,
    h' = h ++ evs /\
    naps_of evs = 8%nat /\
    (forall t, t ∈ patterns country -> CGet (title_params t) ∈ evs) /\
    (forall q, q ∈ query_variants country -> CGet (search_params q) ∈ evs).
Proof.
  unfold commons_search_svg. intros H.
  destruct (exact_tries srv (patterns country) h) as [[i0|] h1|e] eqn:X;
    [discriminate| |discriminate].
  destruct (exact_tries_log _ _ _ _ _ X) as (evs & -> & _ & Hlen & Hin).
  destruct (searches_log _ _ _ _ _ H) as (evs2 & -> & Hlen2 & Hin2).
  exists (evs ++ evs2). split; [now rewrite <- app_assoc|].
  split; [rewrite naps_of_app, Hlen, Hlen2; reflexivity|].
  split; intros x Hx; apply elem_of_app;
    [left; exact (Hin x Hx) | right; exact (Hin2 x Hx)].
Qed.

(** X18: a search query is sent only after all four titles were looked up
    and missed: the log of a call in which a query was sent begins with
    the log of the four look-ups, four naps among them and no query, and
    these look-ups found nothing. *)
Theorem search_after_exact srv country h r evs q :
  commons_search_svg srv country h = Done r (h ++ evs) ->
  CGet (search_params q) ∈ evs ->
  exists evs1 evs2,
    evs = evs1 ++ evs2 /\
    exact_tries srv (patterns country) h = Done None (h ++ evs1) /\
    (forall t, t ∈ patterns country -> CGet (title_params t) ∈ evs1) /\
    naps_of evs1 = 4%nat /\
    (forall q', CGet (search_params q') ∉ evs1).
Proof.
  unfold commons_search_svg. intros H Hq.
  destruct (exact_tries srv (patterns country) h) as [[i0|] h1|e] eqn:X;
    [| |discriminate].
  - injection H as <- E.
    destruct (exact_tries_log _ _ _ _ _ X) as (evs1 & E1 & Hall & _).
    rewrite E1 in E. apply app_inv_head in E. subst evs1.
    rewrite Forall_forall in Hall. specialize (Hall _ Hq).
    destruct Hall as (t & _ & Ht). symmetry in Ht.
    now apply params_differ in Ht.
  - destruct (exact_tries_log _ _ _ _ _ X) as (evs1 & -> & Hall & Hlen & Hin).
    destruct (searches_log _ _ _ _ _ H) as (evs2 & E & _).
    rewrite <- app_assoc in E. apply app_inv_head in E. subst evs.
    exists evs1, evs2. split; [reflexivity|]. split; [reflexivity|].
    split; [exact Hin|]. split; [exact Hlen|].
    intros q' Hq'. rewrite Forall_forall in Hall. specialize (Hall _ Hq').
    destruct Hall as (t & _ & Ht). symmetry in Ht.
    now apply params_differ in Ht.
Qed.

#[local] Instance call_eq_dec : EqDecision call.
Proof. solve_decision. Defined.

(** An API for which the four titles are missing, the first query finds
    one file, and the look-up of this file resolves. *)
Definition missing_answer : json :=
  JObj [ (py "query",
          JObj [ (py "pages",
                  JArr [ JObj [ (py "title", JStr (py "File:X.svg"));
                                (py "missing", JBool true) ] ]) ]) ].

Definition hits_answer : json :=
  JObj [ (py "query",
          JObj [ (py "search",
                  JArr [ JObj [ (py "title", JStr (py "Category:Chad")) ];
                         JObj [ (py "title",
                                 JStr (py "File:Coat of arms of Chad.svg")) ] ]) ]) ].

Definition search_api : api :=
  scripted
    [ ApiResponse 200 json_type (Some missing_answer);
      ApiResponse 200 json_type (Some missing_answer);
      ApiResponse 200 json_type (Some missing_answer);
      ApiResponse 200 json_type (Some missing_answer);
      ApiResponse 200 json_type (Some hits_answer);
      ApiResponse 200 json_type (Some chad_answer) ].

Definition search_log : list call :=
  flat_map (fun t => [CGet (title_params t); CNap]) (patterns (py "Chad"))
  ++ [ CGet (search_params
               (py "intitle:" ++ [34] ++ py "Coat of arms of Chad" ++ [34]
                  ++ py " filetype:svg"));
       CGet (title_params (py "Coat of arms of Chad.svg")) ].

Lemma search_found_witness :
  exists evs,
    search_log = [] ++ evs /\
    (naps_of evs <= 7)%nat /\
    exists t mid data,
      evs = mid ++ [CGet (title_params t)] /\
      usable (search_api ([] ++ mid) (title_params t)) = Some data /\
      resolves data chad_info.
Proof.
  apply (search_found search_api (py "Chad") [] chad_info search_log).
  now vm_compute.
Defined.

(** An API out of reach. *)
Definition dead_api : api := scripted [].

Lemma search_not_found_witness :
  exists h' evs,
    commons_search_svg dead_api (py "Chad") [] = Done None h' /\
    h' = [] ++ evs /\
    naps_of evs = 8%nat /\
    (forall t, t ∈ patterns (py "Chad") -> CGet (title_params t) ∈ evs) /\
    (forall q, q ∈ query_variants (py "Chad") ->
       CGet (search_params q) ∈ evs).
Proof.
  destruct (commons_search_svg dead_api (py "Chad") []) as [[i|] h'|e] eqn:H;
    [vm_compute in H; discriminate H | | vm_compute in H; discriminate H].
  exists h'. 
  destruct (search_not_found dead_api (py "Chad") [] h' H) as (evs & Hevs).
  exists evs. split; [reflexivity|]. exact Hevs.
Defined.

Lemma search_after_exact_witness :
  exists evs1 evs2,
    search_log = evs1 ++ evs2 /\
    exact_tries search_api (patterns (py "Chad")) [] = Done None ([] ++ evs1) /\
    (forall t, t ∈ patterns (py "Chad") -> CGet (title_params t) ∈ evs1) /\
    naps_of evs1 = 4%nat /\
    (forall q', CGet (search_params q') ∉ evs1).
Proof.
  apply (search_after_exact search_api (py "Chad") [] (Some chad_info)
           search_log
           (py "intitle:" ++ [34] ++ py "Coat of arms of Chad" ++ [34]
              ++ py " filetype:svg")).
  - now vm_compute.
  - apply (bool_decide_unpack _). now vm_compute.
Defined.

(** *** An API out of reach *)

Definition dead_log (country : pystr) : list call :=
  flat_map (fun p => tried p 5 ++ [CNap])
    (map title_params (patterns country)
     ++ map search_params (query_variants country)).

Lemma get_json_dead srv p h :
  (forall h, usable (srv h p) = None) ->
  get_json srv p h = (JNull, h ++ tried p 5).
Proof.
  intros Hdead. unfold get_json. cbn [seq].
  repeat (rewrite get_json_attempts_step, Hdead).
  cbn [get_json_attempts]. now rewrite <- !app_assoc.
Qed.

Lemma file_info_dead srv t h :
  (forall h p, usable (srv h p) = None) ->
  commons_file_info_by_title srv t h
  = Done None (h ++ tried (title_params t) 5).
Proof.
  intros Hdead. rewrite commons_file_info_by_title_eq.
  now rewrite get_json_dead by auto.
Qed.

Lemma exact_tries_dead srv ts :
  (forall h p, usable (srv h p) = None) ->
  forall h,
    exact_tries srv ts h
    = Done None (h ++ flat_map (fun p => tried p 5 ++ [CNap])
                        (map title_params ts)).
Proof.
  intros Hdead. induction ts as [|t ts IH]; intros h.
  - simpl. now rewrite app_nil_r.
  - cbn [exact_tries]. rewrite file_info_dead by exact Hdead.
    rewrite IH. cbn [map flat_map]. now rewrite <- !app_assoc.
Qed.

Lemma searches_dead srv qs :
  (forall h p, usable (srv h p) = None) ->
  forall h,
    searches srv qs h
    = Done None (h ++ flat_map (fun p => tried p 5 ++ [CNap])
                        (map search_params qs)).
Proof.
  intros Hdead. induction qs as [|q qs IH]; intros h.
  - simpl. now rewrite app_nil_r.
  - cbn [searches]. rewrite get_json_dead by auto. cbn [truth negb].
    rewrite IH. cbn [map flat_map]. now rewrite <- !app_assoc.
Qed.

(** X19: with an API that never gives a usable answer (out of reach, or
    blocking with an HTML page) the search for one country does not
    raise: it returns [None] after forty requests, five for each of the
    eight strategies, 120 seconds of back-off and eight naps. *)
Theorem search_dead_api srv country h :
  (forall h p, usable (srv h p) = None) ->
  commons_search_svg srv country h = Done None (h ++ dead_log country) /\
  gets_of (dead_log country) = 40%nat /\
  slept (dead_log country) = 120%nat /\
  naps_of (dead_log country) = 8%nat.
Proof.
  intros Hdead. split; [|now vm_compute].
  unfold commons_search_svg, dead_log.
  rewrite exact_tries_dead by exact Hdead.
  rewrite searches_dead by exact Hdead.
  now rewrite flat_map_app, <- app_assoc.
Qed.

Lemma search_dead_api_witness :
  commons_search_svg dead_api (py "Chad") []
  = Done None ([] ++ dead_log (py "Chad")) /\
  gets_of (dead_log (py "Chad")) = 40%nat /\
  slept (dead_log (py "Chad")) = 120%nat /\
  naps_of (dead_log (py "Chad")) = 8%nat.
Proof.
  apply (search_dead_api dead_api (py "Chad") []).
  intros h p. unfold dead_api, scripted. now destruct (gets_of h).
Defined.

(** *** The title of a hit *)

Lemma startswith_drop pre : forall s,
  startswith pre s = true -> pre ++ drop (length pre) s = s.
Proof.
  induction pre as [|a pre IH]; intros s H; [reflexivity|].
  destruct s as [|b s]; [discriminate|]. simpl in H.
  apply andb_true_iff in H. destruct H as [Hab H].
  apply N.eqb_eq in Hab. subst b. simpl. now rewrite IH.
Qed.

(** X20: a hit is looked up only under a title that begins with [File:], and
    then [replace] takes this prefix away and [titles] puts it back: the
    look-up asks for the hit's own title. *)
Theorem hit_title_round_trip ts :
  startswith (py "File:") ts = true ->
  py "File:" ++ replace_first (py "File:") (py "") ts = ts /\
  In (py "titles", ts) (title_params (replace_first (py "File:") (py "") ts)).
Proof.
  intros H.
  assert (E : py "File:" ++ replace_first (py "File:") (py "") ts = ts).
  { destruct ts as [|c ts]; [discriminate|].
    unfold replace_first at 1. rewrite H.
    change (py "" ++ ?x) with x. now apply startswith_drop. }
  split; [exact E|].
  unfold title_params. rewrite E. simpl. tauto.
Qed.

Lemma hit_title_round_trip_witness :
  py "File:" ++ replace_first (py "File:") (py "")
                  (py "File:Coat of arms of Chad.svg")
  = py "File:Coat of arms of Chad.svg" /\
  In (py "titles", py "File:Coat of arms of Chad.svg")
     (title_params (replace_first (py "File:") (py "")
                      (py "File:Coat of arms of Chad.svg"))).
Proof.
  apply (hit_title_round_trip (py "File:Coat of arms of Chad.svg")).
  reflexivity.
Defined.

End ResolverFacts.
